(** * PDF-to-Word: the conversion pipeline and its two assembly strategies

    A shallow embedding of [startConversion] (src/App.tsx), of the line
    parser of [generateWord] (src/services/fileService) and of the table
    merge, then of the functions around them (file selection, page
    extraction, the inference request, the spreadsheet emitter, the
    download name, the manual download and the action area of the view),
    followed by the properties of the specification that concern them
    and by further properties of the code. *)

From Stdlib Require Import String Ascii.
From Stdlib Require Import List NArith ZArith Bool Lia DecimalString.
From Stdlib Require Import Sorted.
From Stdlib Require DecimalNat.
From Stdlib Require Import Floats.SpecFloat.
From Stdlib Require Import QArith Qpower Qround Lqa.
Close Scope Q_scope.
Import ListNotations.

Set Implicit Arguments.

(** ** JavaScript strings

    A JavaScript string is a finite sequence of UTF-16 code units.  The
    functions below are the methods of [String.prototype] and
    [Array.prototype] that the program calls, restricted to the argument
    shapes it uses. *)

Module JsString.

Definition jsstring := list N.

(** An ASCII literal as a JavaScript string. *)
Definition js (s : string) : jsstring :=
  map N_of_ascii (list_ascii_of_string s).

(** The same, with every apostrophe of the literal standing for a
    double quote (code unit 34). *)
Definition jsq (s : string) : jsstring :=
  map (fun c => if N.eqb c 39 then 34%N else c) (js s).

Definition LF : N := 10.

Fixpoint eqb (a b : jsstring) : bool :=
  match a, b with
  | [], [] => true
  | x :: a', y :: b' => N.eqb x y && eqb a' b'
  | _, _ => false
  end.

(** [s.startsWith(pat)] *)
Fixpoint startsWith (s pat : jsstring) {struct pat} : bool :=
  match pat, s with
  | [], _ => true
  | p :: pat', c :: s' => N.eqb c p && startsWith s' pat'
  | _ :: _, [] => false
  end.

(** [s.replace(pat, rep)] for a string pattern: only the first
    occurrence is replaced.  [rep] is taken literally, which is what
    JavaScript does for a replacement without dollar patterns. *)
Fixpoint replace (s pat rep : jsstring) : jsstring :=
  if startsWith s pat then rep ++ skipn (length pat) s
  else match s with
       | [] => []
       | c :: s' => c :: replace s' pat rep
       end.

(** [s.substring(n)] *)
Definition substring (n : nat) (s : jsstring) : jsstring := skipn n s.

(** [s.split(sep)] for a separator of one code unit. *)
Fixpoint split (sep : N) (s : jsstring) : list jsstring :=
  match s with
  | [] => [[]]
  | c :: s' =>
      if N.eqb c sep then [] :: split sep s'
      else match split sep s' with
           | l :: ls => (c :: l) :: ls
           | [] => [[c]]
           end
  end.

(** WhiteSpace and LineTerminator code points of ECMAScript, the ones
    [trim] strips. *)
Definition is_ws (c : N) : bool :=
  (N.leb 9 c && N.leb c 13)
  || N.eqb c 32 || N.eqb c 160 || N.eqb c 5760
  || (N.leb 8192 c && N.leb c 8202)
  || N.eqb c 8232 || N.eqb c 8233 || N.eqb c 8239
  || N.eqb c 8287 || N.eqb c 12288 || N.eqb c 65279.

Fixpoint trimStart (s : jsstring) : jsstring :=
  match s with
  | [] => []
  | c :: s' => if is_ws c then trimStart s' else s
  end.

Definition trimEnd (s : jsstring) : jsstring := rev (trimStart (rev s)).

(** [s.trim()] *)
Definition trim (s : jsstring) : jsstring := trimEnd (trimStart s).

(** ToBoolean on a string: the empty string is the only falsy one. *)
Definition truthy (s : jsstring) : bool :=
  match s with [] => false | _ :: _ => true end.

(** [l.join(sep)] on an array of strings. *)
Fixpoint join (sep : jsstring) (l : list jsstring) : jsstring :=
  match l with
  | [] => []
  | x :: rest =>
      match rest with
      | [] => x
      | _ :: _ => x ++ sep ++ join sep rest
      end
  end.

(** [a || b] on strings. *)
Definition or_else (a b : jsstring) : jsstring := if truthy a then a else b.

End JsString.
Import JsString.

(** ** The styled-document emitter's line parser (generateWord) *)

Module FileService.

Inductive HeadingLevel := HEADING_1 | HEADING_2 | HEADING_3.

(** The [docx] paragraphs the program constructs, one constructor per
    shape of [new Paragraph(...)] in the source. *)
Inductive Paragraph :=
| P_spacer
    (* new Paragraph({ children: [] }) *)
| P_heading (text : jsstring) (heading : HeadingLevel) (before after : Z)
    (* new Paragraph({ text, heading, spacing: { before, after } }) *)
| P_bullet (run : jsstring) (level : Z)
    (* new Paragraph({ children: [new TextRun(run)], bullet: { level } }) *)
| P_run (run : jsstring) (after : Z)
    (* new Paragraph({ children: [new TextRun(run)], spacing: { after } }) *)
| P_text (text : jsstring).
    (* new Paragraph(text) *)

(** The body of the [lines.forEach] callback: [children] is the array
    being filled, the result is the array after the callback. *)
Definition push_line (children : list Paragraph) (line : jsstring)
  : list Paragraph :=
  let trimmed := trim line in
  if negb (truthy trimmed) && Nat.ltb 0 (length children) then
    children ++ [P_spacer]
  else if startsWith line (js "# ") then
    children ++ [P_heading (replace line (js "# ") []) HEADING_1 240 120]
  else if startsWith line (js "## ") then
    children ++ [P_heading (replace line (js "## ") []) HEADING_2 200 100]
  else if startsWith line (js "### ") then
    children ++ [P_heading (replace line (js "### ") []) HEADING_3 180 90]
  else if startsWith line (js "- ") || startsWith line (js "* ") then
    children ++ [P_bullet (substring 2 line) 0]
  else
    children ++ [P_run line 120].

(** [children] after the [forEach] over [markdownText.split('\n')]. *)
Definition parse_lines (markdownText : jsstring) : list Paragraph :=
  fold_left push_line (split LF markdownText) [].

Definition placeholder : Paragraph :=
  P_text (js "Document converted by Gemini PDF Pro").

(** The [children] of the single section of the generated document. *)
Definition generateWord (markdownText : jsstring) : list Paragraph :=
  let children := parse_lines markdownText in
  if Nat.ltb 0 (length children) then children else [placeholder].

(** The block vocabulary of the specification, and the block each
    paragraph stands for. *)
Inductive Block :=
| Heading (level : nat) (text : jsstring)
| BulletItem (text : jsstring)
| ParagraphBlock (text : jsstring)
| Blank.

Definition level_of (h : HeadingLevel) : nat :=
  match h with HEADING_1 => 1 | HEADING_2 => 2 | HEADING_3 => 3 end.

Definition block_of (p : Paragraph) : Block :=
  match p with
  | P_spacer => Blank
  | P_heading t h _ _ => Heading (level_of h) t
  | P_bullet t _ => BulletItem t
  | P_run t _ => ParagraphBlock t
  | P_text t => ParagraphBlock t
  end.

Definition blocks (markdownText : jsstring) : list Block :=
  map block_of (generateWord markdownText).

End FileService.
Import FileService.

(** ** JSON.parse and the table merge *)

Module Json.

#[local] Unset Elimination Schemes.

(** The values [JSON.parse] can return, and [undefined].  A number is
    kept as the decimal its literal denotes,
    [(-1)^neg * mantissa * 10^exp10]; the Number it stands for is the
    binary64 nearest to that decimal. *)
Inductive JsValue :=
| JUndefined
| JNull
| JBool (b : bool)
| JNumber (neg : bool) (mantissa : N) (exp10 : Z)
| JString (s : jsstring)
| JArray (elems : list JsValue)
| JObject (props : list (jsstring * JsValue)).

#[local] Set Elimination Schemes.

(** JSON white space: tab, line feed, carriage return, space. *)
Definition is_json_ws (c : N) : bool :=
  N.eqb c 9 || N.eqb c 10 || N.eqb c 13 || N.eqb c 32.

Fixpoint skip_ws (s : jsstring) : jsstring :=
  match s with
  | c :: s' => if is_json_ws c then skip_ws s' else s
  | [] => []
  end.

Definition is_digit (c : N) : bool := N.leb 48 c && N.leb c 57.

Definition hex_val (c : N) : option N :=
  if N.leb 48 c && N.leb c 57 then Some (c - 48)%N
  else if N.leb 65 c && N.leb c 70 then Some (c - 55)%N
  else if N.leb 97 c && N.leb c 102 then Some (c - 87)%N
  else None.

Definition hex4 (a b c d : N) : option N :=
  match hex_val a, hex_val b, hex_val c, hex_val d with
  | Some x, Some y, Some z, Some w => Some (((x * 16 + y) * 16 + z) * 16 + w)%N
  | _, _, _, _ => None
  end.

(** The code unit a one-letter escape stands for. *)
Definition unescape (c : N) : option N :=
  if N.eqb c 34 then Some 34%N          (* quote *)
  else if N.eqb c 92 then Some 92%N     (* backslash *)
  else if N.eqb c 47 then Some 47%N     (* slash *)
  else if N.eqb c 98 then Some 8%N      (* b *)
  else if N.eqb c 102 then Some 12%N    (* f *)
  else if N.eqb c 110 then Some 10%N    (* n *)
  else if N.eqb c 114 then Some 13%N    (* r *)
  else if N.eqb c 116 then Some 9%N     (* t *)
  else None.

(** The characters of a string literal after its opening quote, up to
    and including the closing quote. *)
Fixpoint parse_chars (s acc : jsstring) : option (jsstring * jsstring) :=
  match s with
  | [] => None
  | c :: r =>
      if N.eqb c 34 then Some (rev acc, r)
      else if N.eqb c 92 then
        match r with
        | [] => None
        | e :: r1 =>
            if N.eqb e 117 then
              match r1 with
              | h1 :: h2 :: h3 :: h4 :: r2 =>
                  match hex4 h1 h2 h3 h4 with
                  | Some u => parse_chars r2 (u :: acc)
                  | None => None
                  end
              | _ => None
              end
            else
              match unescape e with
              | Some u => parse_chars r1 (u :: acc)
              | None => None
              end
        end
      else if N.ltb c 32 then None
      else parse_chars r (c :: acc)
  end.

(** A maximal run of decimal digits: its value, its length, the rest. *)
Fixpoint parse_digits (s : jsstring) (acc : N) (n : nat)
  : N * nat * jsstring :=
  match s with
  | c :: r =>
      if is_digit c then parse_digits r (acc * 10 + (c - 48))%N (S n)
      else (acc, n, s)
  | [] => (acc, n, s)
  end.

Definition parse_exponent (s : jsstring) : option (Z * jsstring) :=
  match s with
  | c :: r =>
      if N.eqb c 101 || N.eqb c 69 then
        let '(sign, r1) :=
          match r with
          | d :: r' =>
              if N.eqb d 43 then (1%Z, r')
              else if N.eqb d 45 then ((-1)%Z, r')
              else (1%Z, r)
          | [] => (1%Z, r)
          end in
        match parse_digits r1 0 0 with
        | (_, O, _) => None
        | (v, S _, r2) => Some ((sign * Z.of_N v)%Z, r2)
        end
      else Some (0%Z, s)
  | [] => Some (0%Z, s)
  end.

Definition parse_fraction (s : jsstring) (int : N)
  : option (N * Z * jsstring) :=
  match s with
  | c :: r =>
      if N.eqb c 46 then
        match parse_digits r int 0 with
        | (_, O, _) => None
        | (v, S k, r1) => Some (v, (- Z.of_nat (S k))%Z, r1)
        end
      else Some (int, 0%Z, s)
  | [] => Some (int, 0%Z, s)
  end.

(** number = [ minus ] int [ frac ] [ exp ] *)
Definition parse_number (s : jsstring) : option (JsValue * jsstring) :=
  let '(neg, s1) :=
    match s with
    | c :: r => if N.eqb c 45 then (true, r) else (false, s)
    | [] => (false, s)
    end in
  let int :=
    match s1 with
    | c :: r =>
        if N.eqb c 48 then Some (0%N, r)
        else if is_digit c then
          let '(v, _, r1) := parse_digits s1 0 0 in Some (v, r1)
        else None
    | [] => None
    end in
  match int with
  | None => None
  | Some (i, s2) =>
      match parse_fraction s2 i with
      | None => None
      | Some (m, fe, s3) =>
          match parse_exponent s3 with
          | None => None
          | Some (e, s4) => Some (JNumber neg m (fe + e), s4)
          end
      end
  end.

Section Containers.
(** The parser of one value, as the parsers of arrays and objects
    call it. *)
Variable pv : jsstring -> option (JsValue * jsstring).

(** The elements of an array after the first bracket, when the array
    is not empty. *)
Fixpoint parse_elements (fuel : nat) (s : jsstring) (acc : list JsValue)
  : option (list JsValue * jsstring) :=
  match fuel with
  | O => None
  | S f =>
      match pv s with
      | None => None
      | Some (v, r) =>
          match skip_ws r with
          | c :: r' =>
              if N.eqb c 44 then parse_elements f r' (v :: acc)
              else if N.eqb c 93 then Some (rev (v :: acc), r')
              else None
          | [] => None
          end
      end
  end.

(** The members of an object after the first brace, when the object
    is not empty. *)
Fixpoint parse_members (fuel : nat) (s : jsstring)
         (acc : list (jsstring * JsValue))
  : option (list (jsstring * JsValue) * jsstring) :=
  match fuel with
  | O => None
  | S f =>
      match skip_ws s with
      | c :: r =>
          if N.eqb c 34 then
            match parse_chars r [] with
            | None => None
            | Some (k, r1) =>
                match skip_ws r1 with
                | c1 :: r2 =>
                    if N.eqb c1 58 then
                      match pv r2 with
                      | None => None
                      | Some (v, r3) =>
                          match skip_ws r3 with
                          | c3 :: r4 =>
                              if N.eqb c3 44 then
                                parse_members f r4 ((k, v) :: acc)
                              else if N.eqb c3 125 then
                                Some (rev ((k, v) :: acc), r4)
                              else None
                          | [] => None
                          end
                      end
                    else None
                | [] => None
                end
            end
          else None
      | [] => None
      end
  end.
End Containers.

Fixpoint parse_value (fuel : nat) (s : jsstring)
  : option (JsValue * jsstring) :=
  match fuel with
  | O => None
  | S f =>
      match skip_ws s with
      | [] => None
      | c :: r =>
          if N.eqb c 123 then
            match skip_ws r with
            | c' :: r' =>
                if N.eqb c' 125 then Some (JObject [], r')
                else match parse_members (parse_value f) f r [] with
                     | Some (ps, r1) => Some (JObject ps, r1)
                     | None => None
                     end
            | [] => None
            end
          else if N.eqb c 91 then
            match skip_ws r with
            | c' :: r' =>
                if N.eqb c' 93 then Some (JArray [], r')
                else match parse_elements (parse_value f) f r [] with
                     | Some (vs, r1) => Some (JArray vs, r1)
                     | None => None
                     end
            | [] => None
            end
          else if N.eqb c 34 then
            match parse_chars r [] with
            | Some (str, r1) => Some (JString str, r1)
            | None => None
            end
          else if startsWith (c :: r) (js "true") then
            Some (JBool true, skipn 4 (c :: r))
          else if startsWith (c :: r) (js "false") then
            Some (JBool false, skipn 5 (c :: r))
          else if startsWith (c :: r) (js "null") then
            Some (JNull, skipn 4 (c :: r))
          else parse_number (c :: r)
      end
  end.

(** [JSON.parse(text)]; [None] stands for the SyntaxError it throws.
    Every nesting level and every element consumes a code unit, so one
    unit of fuel per code unit of [text], and one more, is enough. *)
Definition JSON_parse (text : jsstring) : option JsValue :=
  match parse_value (S (length text)) text with
  | Some (v, r) =>
      match skip_ws r with
      | [] => Some v
      | _ :: _ => None
      end
  | None => None
  end.

(** The value of the last member named [key]: a later duplicate
    overwrites an earlier one. *)
Fixpoint lookup (key : jsstring) (props : list (jsstring * JsValue))
  : JsValue :=
  match props with
  | [] => JUndefined
  | (k, v) :: rest =>
      match lookup key rest with
      | JUndefined => if JsString.eqb k key then v else JUndefined
      | later => later
      end
  end.

(** [v.tables]; [None] stands for the TypeError of a property read on
    [null] or [undefined].  No prototype has a property of that name,
    so every value that is not an object answers [undefined]. *)
Definition get_tables (v : JsValue) : option JsValue :=
  match v with
  | JUndefined | JNull => None
  | JObject props => Some (lookup (js "tables") props)
  | _ => Some JUndefined
  end.

(** A decimal rounds to the Number zero when it is at most half of the
    least positive binary64, 2^-1074. *)
Definition rounds_to_zero (m : N) (e : Z) : bool :=
  N.eqb m 0
  || (Z.ltb e 0 && Z.leb (Z.of_N m * 2 ^ 1075) (10 ^ (- e))).

(** ToBoolean *)
Definition to_boolean (v : JsValue) : bool :=
  match v with
  | JUndefined | JNull => false
  | JBool b => b
  | JNumber _ m e => negb (rounds_to_zero m e)
  | JString s => truthy s
  | JArray _ | JObject _ => true
  end.

(** The callback of [pageResults.flatMap]:
    [try { return JSON.parse(res).tables || []; } catch { return []; }] *)
Definition tables_of (res : jsstring) : JsValue :=
  match JSON_parse res with
  | None => JArray []
  | Some parsed =>
      match get_tables parsed with
      | None => JArray []
      | Some t => if to_boolean t then t else JArray []
      end
  end.

(** [l.flatMap(f)]: an array returned by [f] is spliced in, any other
    value is appended as one element. *)
Definition flatMap (A : Type) (f : A -> JsValue) (l : list A)
  : list JsValue :=
  flat_map (fun x => match f x with
                     | JArray elems => elems
                     | v => [v]
                     end) l.

Definition allTables (pageResults : list jsstring) : list JsValue :=
  flatMap tables_of pageResults.

(** What one page result adds to the merged array. *)
Definition page_tables (res : jsstring) : list JsValue :=
  match tables_of res with
  | JArray elems => elems
  | v => [v]
  end.

(** The table with the given headers and rows of string cells. *)
Definition table (headers : list jsstring) (rows : list (list jsstring))
  : JsValue :=
  JObject [ (js "headers", JArray (map JString headers));
            (js "rows", JArray (map (fun r => JArray (map JString r)) rows)) ].

(** *** The table merge in the words of the specification

    A page result counts when it parses to [{ tables: Table[] }], a
    [Table] being an object with an array of strings [headers] and an
    array of arrays [rows]; every other page contributes nothing. *)

Definition is_string (v : JsValue) : bool :=
  match v with JString _ => true | _ => false end.

Definition is_array (v : JsValue) : bool :=
  match v with JArray _ => true | _ => false end.

Definition is_table (v : JsValue) : bool :=
  match v with
  | JObject props =>
      match lookup (js "headers") props, lookup (js "rows") props with
      | JArray hs, JArray rs => forallb is_string hs && forallb is_array rs
      | _, _ => false
      end
  | _ => false
  end.

Definition matches_shape (v : JsValue) : option (list JsValue) :=
  match v with
  | JObject props =>
      match lookup (js "tables") props with
      | JArray ts => if forallb is_table ts then Some ts else None
      | _ => None
      end
  | _ => None
  end.

Definition assembleTables_spec (results : list jsstring) : list JsValue :=
  flat_map (fun res =>
              match JSON_parse res with
              | Some v =>
                  match matches_shape v with
                  | Some ts => ts
                  | None => []
                  end
              | None => []
              end) results.

(** A page result on which the two agree: it does not parse, or it has
    the shape, or the code takes nothing from it. *)
Definition validated (res : jsstring) : bool :=
  match JSON_parse res with
  | None => true
  | Some v =>
      match matches_shape v with
      | Some _ => true
      | None =>
          match tables_of res with
          | JArray [] => true
          | _ => false
          end
      end
  end.

Definition table_assembly_as_specified : Prop :=
  forall results, allTables results = assembleTables_spec results.

End Json.
Import Json.

(** ** Numbers

    A JavaScript Number is an IEEE 754 binary64; the operations are the
    ones of the Standard Library's specification of that format. *)

Module Number.

Definition number := spec_float.

Definition prec : Z := 53.
Definition emax : Z := 1024.

(** The Number an integer literal or an array length denotes. *)
Definition num (z : Z) : number := binary_normalize prec emax z 0 false.

Definition div (x y : number) : number := SFdiv prec emax x y.
Definition mul (x y : number) : number := SFmul prec emax x y.
Definition add (x y : number) : number := SFadd prec emax x y.
Definition leb (x y : number) : bool := SFleb x y.

(** [Math.floor] *)
Definition floor (x : number) : number :=
  match x with
  | S754_finite s m e =>
      if Z.leb 0 e then x
      else num (Z.shiftr (cond_Zopp s (Zpos m)) (- e))
  | _ => x
  end.

(** The rational a positive finite Number stands for (zero otherwise). *)
Definition val (x : number) : Q :=
  match x with
  | S754_finite false m e => (inject_Z (Zpos m) * 2 ^ e)%Q
  | _ => 0%Q
  end.

(** One part in 2^52, the relative error bound of one rounding. *)
Definition u52 : Q := (1 # (2 ^ 52))%Q.

(** A Number in normal form: positive, with a mantissa of 53 bits. *)
Definition normal53 (x : number) (m : positive) (e : Z) : Prop :=
  x = S754_finite false m e /\ (2 ^ 52 <= Zpos m < 2 ^ 53)%Z.

(** [(i / n) * 85], the product of which the progress takes the floor. *)
Definition scaled (i n : nat) : number :=
  mul (div (num (Z.of_nat i)) (num (Z.of_nat n))) (num 85).

(** Its integer part. *)
Definition percent (i n : nat) : Z := Qfloor (val (scaled i n)).

(** The greatest length of a JavaScript array. *)
Definition MAX_ARRAY_LENGTH : Z := 2 ^ 32 - 1.

End Number.
Import Number.

(** ** The conversion pipeline (startConversion) *)

Module App.

Inductive ConversionTarget := WORD | EXCEL.

Definition target_name (t : ConversionTarget) : jsstring :=
  match t with WORD => js "WORD" | EXCEL => js "EXCEL" end.

Record ConversionStatus := {
  step : jsstring;
  progress : number;
  isProcessing : bool;
  error : option jsstring
}.

Record DocumentPage := { index : nat; dataUrl : jsstring }.

(** The browser's [File], of which the pipeline reads the name. *)
Record File := { name : jsstring }.

(** [finalData]: [{ tables }] or [{ markdown }]. *)
Inductive FinalData :=
| Tables (tables : list JsValue)
| Markdown (markdown : jsstring).

(** A thrown value, of which the handler reads [message]: an [Error],
    or any value that is not [null] or [undefined], a missing message
    reading as the empty string (both are falsy). *)
Record JsError := { message : jsstring }.

(** What a run does that can be seen from outside, in order. *)
Inductive Event :=
| EvSetStatus (s : ConversionStatus)
| EvInferCall (i : nat) (dataUrl : jsstring) (target : ConversionTarget)
| EvInferSettled (i : nat) (outcome : JsError + jsstring)
| EvSetConversionResult (d : FinalData)
| EvGenerateExcel (tables : list JsValue) (filename : jsstring)
| EvGenerateWord (markdownText : jsstring) (filename : jsstring)
| EvConsoleError (e : JsError).

(** The collaborators of the pipeline.  [infer i url t] is how the
    promise of the [i]-th call of [processPageWithGemini] settles;
    [excel] and [word] tell whether the emitter throws; [clean] strips
    the extension of the source file name, which the two variants of
    the application do differently. *)
Record Env := {
  infer : nat -> jsstring -> ConversionTarget -> JsError + jsstring;
  excel : list JsValue -> jsstring -> option JsError;
  word : jsstring -> jsstring -> option JsError;
  clean : jsstring -> jsstring
}.

(** The component state the pipeline writes, and the trace of events. *)
Record Store := {
  status : ConversionStatus;
  conversionResult : option FinalData;
  trace : list Event
}.

(** Computations that read and write the store and may throw. *)
Definition M (A : Type) : Type := Store -> (JsError + A) * Store.

Definition ret (A : Type) (a : A) : M A := fun st => (inr a, st).

Definition bind (A B : Type) (c : M A) (k : A -> M B) : M B :=
  fun st =>
    match c st with
    | (inl e, st') => (inl e, st')
    | (inr a, st') => k a st'
    end.

Definition throw (A : Type) (e : JsError) : M A := fun st => (inl e, st).
Arguments throw {A} e.

Definition try_catch (A : Type) (c : M A) (h : JsError -> M A) : M A :=
  fun st =>
    match c st with
    | (inl e, st') => h e st'
    | (inr a, st') => (inr a, st')
    end.

Definition log (ev : Event) : M unit :=
  fun st => (inr tt, {| status := status st;
                        conversionResult := conversionResult st;
                        trace := trace st ++ [ev] |}).

Notation "x <- c ;; k" := (bind c (fun x => k))
  (at level 61, c at next level, right associativity).
Notation "c ;; k" := (bind c (fun _ => k))
  (at level 61, right associativity).

(** [setStatus] with an updater: [setStatus(prev => ...)]; the plain
    form is the constant updater. *)
Definition setStatus (f : ConversionStatus -> ConversionStatus) : M unit :=
  fun st =>
    let s := f (status st) in
    (inr tt, {| status := s;
                conversionResult := conversionResult st;
                trace := trace st ++ [EvSetStatus s] |}).

Definition setConversionResult (d : FinalData) : M unit :=
  fun st =>
    (inr tt, {| status := status st;
                conversionResult := Some d;
                trace := trace st ++ [EvSetConversionResult d] |}).

Definition decimal (n : nat) : jsstring :=
  js (NilZero.string_of_uint (Nat.to_uint n)).

Definition PAGE_BREAK : jsstring :=
  [LF; LF] ++ js "--- PAGE BREAK ---" ++ [LF; LF].

Definition PAGE_BREAK_LINE : jsstring := js "--- PAGE BREAK ---".

Definition default_error : jsstring :=
  js "Something went wrong during conversion.".

Section Pipeline.
Variable env : Env.

(** [await processPageWithGemini(dataUrl, target)], the [i]-th call
    of the run. *)
Definition processPageWithGemini
           (i : nat) (url : jsstring) (target : ConversionTarget)
  : M jsstring :=
  log (EvInferCall i url target) ;;
  let outcome := infer env i url target in
  log (EvInferSettled i outcome) ;;
  match outcome with
  | inl e => throw e
  | inr result => ret result
  end.

Definition generateExcel (tables : list JsValue) (filename : jsstring)
  : M unit :=
  log (EvGenerateExcel tables filename) ;;
  match excel env tables filename with
  | Some e => throw e
  | None => ret tt
  end.

Definition generateWordFile (markdownText filename : jsstring) : M unit :=
  log (EvGenerateWord markdownText filename) ;;
  match word env markdownText filename with
  | Some e => throw e
  | None => ret tt
  end.

(** [data.tables || []] and [data.markdown || ''] on the two shapes
    of [finalData]. *)
Definition tables_or_empty (d : FinalData) : list JsValue :=
  match d with Tables ts => ts | Markdown _ => [] end.

Definition markdown_or_empty (d : FinalData) : jsstring :=
  match d with Markdown md => or_else md [] | Tables _ => [] end.

Definition triggerDownload
           (targetType : ConversionTarget) (data : FinalData)
           (fileName : jsstring) : M unit :=
  let cleanFileName := clean env fileName in
  match targetType with
  | EXCEL => generateExcel (tables_or_empty data) cleanFileName
  | WORD => generateWordFile (markdown_or_empty data) cleanFileName
  end.

(** The progress shown while page [i] of [n] is processed:
    [5 + Math.floor((i / pages.length) * 85)]. *)
Definition page_progress (i n : nat) : number :=
  add (num 5)
      (floor (mul (div (num (Z.of_nat i)) (num (Z.of_nat n))) (num 85))).

(** The [for] loop from index [i] on: [rest] are the pages from [i]
    to the end, [n] is [pages.length], [pageResults] the array
    filled so far. *)
Fixpoint for_pages (target : ConversionTarget) (n i : nat)
         (rest : list DocumentPage) (pageResults : list jsstring)
  : M (list jsstring) :=
  match rest with
  | [] => ret pageResults
  | page :: rest' =>
      let pageStatusText :=
        js "Processing page " ++ decimal (i + 1) ++ js " of "
           ++ decimal n ++ js "..." in
      setStatus (fun prev =>
                   {| step := pageStatusText;
                      progress := page_progress i n;
                      isProcessing := isProcessing prev;
                      error := error prev |}) ;;
      result <- processPageWithGemini i (dataUrl page) target ;;
      for_pages target n (S i) rest' (pageResults ++ [result])
  end.

Definition assemble (target : ConversionTarget)
           (pageResults : list jsstring) : FinalData :=
  match target with
  | EXCEL => Tables (allTables pageResults)
  | WORD => Markdown (join PAGE_BREAK pageResults)
  end.

Definition startConversion
           (file : option File) (pages : list DocumentPage)
           (target : ConversionTarget) : M unit :=
  match file with
  | None => ret tt
  | Some f =>
      if Nat.eqb (length pages) 0 then ret tt
      else
        setStatus (fun _ =>
                     {| step := js "Initializing Gemini for "
                                   ++ target_name target ++ js "...";
                        progress := num 5;
                        isProcessing := true;
                        error := None |}) ;;
        try_catch
          (pageResults <- for_pages target (length pages) 0 pages [] ;;
           setStatus (fun _ =>
                        {| step := js "Finalizing document...";
                           progress := num 95;
                           isProcessing := true;
                           error := None |}) ;;
           let finalData := assemble target pageResults in
           setConversionResult finalData ;;
           triggerDownload target finalData (name f) ;;
           setStatus (fun _ =>
                        {| step := js "Conversion Complete!";
                           progress := num 100;
                           isProcessing := false;
                           error := None |}))
          (fun err =>
             log (EvConsoleError err) ;;
             setStatus (fun _ =>
                          {| step := js "Error occurred";
                             progress := num 0;
                             isProcessing := false;
                             error := Some (or_else (message err)
                                                    default_error) |}))
  end.

End Pipeline.

(** *** Readings of a trace *)

Definition inference_calls (tr : list Event)
  : list (nat * jsstring * ConversionTarget) :=
  flat_map (fun ev => match ev with
                      | EvInferCall i url t => [(i, url, t)]
                      | _ => []
                      end) tr.

Definition reported_progress (tr : list Event) : list number :=
  flat_map (fun ev => match ev with
                      | EvSetStatus s => [progress s]
                      | _ => []
                      end) tr.

Definition is_emission (ev : Event) : bool :=
  match ev with
  | EvGenerateExcel _ _ | EvGenerateWord _ _ => true
  | _ => false
  end.

Definition is_result (ev : Event) : bool :=
  match ev with
  | EvSetConversionResult _ => true
  | _ => false
  end.

(** *** The events of a run, written out *)

Definition page_status (n i : nat) (ip : bool) (er : option jsstring)
  : ConversionStatus :=
  {| step := js "Processing page " ++ decimal (i + 1) ++ js " of "
                ++ decimal n ++ js "...";
     progress := page_progress i n;
     isProcessing := ip;
     error := er |}.

(** The three events of one iteration of the loop. *)
Definition page_events (env : Env) (target : ConversionTarget)
           (n : nat) (ip : bool) (er : option jsstring)
           (i : nat) (page : DocumentPage) : list Event :=
  [ EvSetStatus (page_status n i ip er);
    EvInferCall i (dataUrl page) target;
    EvInferSettled i (infer env i (dataUrl page) target) ].

Fixpoint loop_events (env : Env) (target : ConversionTarget)
         (n : nat) (ip : bool) (er : option jsstring)
         (i : nat) (rest : list DocumentPage) : list Event :=
  match rest with
  | [] => []
  | page :: rest' =>
      page_events env target n ip er i page
      ++ loop_events env target n ip er (S i) rest'
  end.

(** How the calls for [rest], numbered from [i], settle. *)
Fixpoint outcomes (env : Env) (target : ConversionTarget)
         (i : nat) (rest : list DocumentPage) : list (JsError + jsstring) :=
  match rest with
  | [] => []
  | page :: rest' =>
      infer env i (dataUrl page) target :: outcomes env target (S i) rest'
  end.

(** The calls a loop over [rest], numbered from [i], makes when none
    fails. *)
Fixpoint calls_from (target : ConversionTarget) (i : nat)
         (rest : list DocumentPage)
  : list (nat * jsstring * ConversionTarget) :=
  match rest with
  | [] => []
  | page :: rest' => (i, dataUrl page, target) :: calls_from target (S i) rest'
  end.

Definition init_status (target : ConversionTarget) : ConversionStatus :=
  {| step := js "Initializing Gemini for " ++ target_name target ++ js "...";
     progress := num 5; isProcessing := true; error := None |}.

Definition finalizing_status : ConversionStatus :=
  {| step := js "Finalizing document..."; progress := num 95;
     isProcessing := true; error := None |}.

Definition complete_status : ConversionStatus :=
  {| step := js "Conversion Complete!"; progress := num 100;
     isProcessing := false; error := None |}.

Definition error_status (err : JsError) : ConversionStatus :=
  {| step := js "Error occurred"; progress := num 0;
     isProcessing := false;
     error := Some (or_else (message err) default_error) |}.

(** The emitter call of a run. *)
Definition emission (env : Env) (target : ConversionTarget)
           (f : File) (d : FinalData) : Event :=
  match target with
  | EXCEL => EvGenerateExcel (tables_or_empty d) (clean env (name f))
  | WORD => EvGenerateWord (markdown_or_empty d) (clean env (name f))
  end.

Definition emitter_outcome (env : Env) (target : ConversionTarget)
           (f : File) (d : FinalData) : option JsError :=
  match target with
  | EXCEL => excel env (tables_or_empty d) (clean env (name f))
  | WORD => word env (markdown_or_empty d) (clean env (name f))
  end.

(** The events after the loop of a run whose inference succeeded. *)
Definition closing_events (env : Env) (target : ConversionTarget)
           (f : File) (d : FinalData) : list Event :=
  [ EvSetStatus finalizing_status;
    EvSetConversionResult d;
    emission env target f d ]
  ++ match emitter_outcome env target f d with
     | None => [EvSetStatus complete_status]
     | Some e => [EvConsoleError e; EvSetStatus (error_status e)]
     end.

(** The store after the iteration for [page], the [i]-th of [n], when
    it started in [st]. *)
Definition after_page (env : Env) (target : ConversionTarget) (n : nat)
           (st : Store) (i : nat) (page : DocumentPage) : Store :=
  {| status := page_status n i (isProcessing (status st)) (error (status st));
     conversionResult := conversionResult st;
     trace := trace st
              ++ page_events env target n (isProcessing (status st))
                   (error (status st)) i page |}.

(** The pending call after a trace, if calls and settlements alternate:
    no call starts while another is pending, and a settlement is the
    pending call's. *)
Fixpoint settle (pending : option nat) (tr : list Event)
  : option (option nat) :=
  match tr with
  | [] => Some pending
  | EvInferCall i _ _ :: tr' =>
      match pending with
      | None => settle (Some i) tr'
      | Some _ => None
      end
  | EvInferSettled i _ :: tr' =>
      match pending with
      | Some j => if Nat.eqb i j then settle None tr' else None
      | None => None
      end
  | _ :: tr' => settle pending tr'
  end.

Definition sequential (tr : list Event) : Prop := settle None tr = Some None.

Fixpoint nondecreasing (l : list number) : bool :=
  match l with
  | [] => true
  | x :: l' =>
      match l' with
      | [] => true
      | y :: _ => leb x y && nondecreasing l'
      end
  end.

(** The page cap of [extractPagesAsImages]:
    [Math.min(pdf.numPages, 10)]; an image is one page. *)
Definition MAX_PAGES : nat := 10.

(** [extractPagesAsImages] on a PDF of [numPages] pages: [canvas i] is
    the data URL of the rendering of page [i], or [None] when no 2d
    context is to be had, in which case the page is skipped. *)
Definition extractPagesAsImages
           (numPages : nat) (canvas : nat -> option jsstring)
  : list DocumentPage :=
  let pagesToProcess := Nat.min numPages MAX_PAGES in
  flat_map (fun i => match canvas i with
                     | Some url => [ {| index := i; dataUrl := url |} ]
                     | None => []
                     end)
           (seq 1 pagesToProcess).

Definition idle : Store :=
  {| status := {| step := js "Ready to convert"; progress := num 0;
                  isProcessing := false; error := None |};
     conversionResult := None;
     trace := [] |}.

(** *** Sample collaborators and pages *)

Definition three_pages : list DocumentPage :=
  [ {| index := 1; dataUrl := js "data:image/png;base64,AAAA" |};
    {| index := 2; dataUrl := js "data:image/png;base64,BBBB" |};
    {| index := 3; dataUrl := js "data:image/png;base64,CCCC" |} ].

Definition sample_file : File := {| name := js "report.pdf" |}.

(** Every call answers with the text of a one-line page; the emitters
    do not throw; the name is kept as it is. *)
Definition env_ok : Env :=
  {| infer := fun i _ _ => inr (js "page " ++ decimal (i + 1));
     excel := fun _ _ => None;
     word := fun _ _ => None;
     clean := fun fileName => fileName |}.

(** The call for the page of index [k] (from 0) throws [e]. *)
Definition env_failing (k : nat) (e : JsError) : Env :=
  {| infer := fun i _ _ =>
                if Nat.eqb i k then inl e
                else inr (js "page " ++ decimal (i + 1));
     excel := fun _ _ => None;
     word := fun _ _ => None;
     clean := fun fileName => fileName |}.

(** *** Two sentences of the specification, as they are written *)

(** The error status of a run whose inference fails shows the message
    of the error. *)
Definition fail_fast_message_as_specified : Prop :=
  forall env f before page after target st err,
    (forall k p, nth_error before k = Some p ->
                 exists r, infer env k (dataUrl p) target = inr r) ->
    infer env (length before) (dataUrl page) target = inl err ->
    error (status (snd (startConversion env (Some f)
                          (before ++ page :: after) target st)))
    = Some (message err).

(** A run over no page fails: it throws, or it ends with an error in
    the status. *)
Definition empty_input_as_specified : Prop :=
  forall env file target st,
    (exists e, fst (startConversion env file [] target st) = inl e)
    \/ (exists msg,
           error (status (snd (startConversion env file [] target st)))
           = Some msg).

End App.
Import App.

(** ** File names (triggerDownload) *)

Module FileName.

(** [s.includes(pat)] *)
Fixpoint occurs (pat s : jsstring) : bool :=
  startsWith s pat
  || match s with
     | [] => false
     | _ :: r => occurs pat r
     end.

(** [fileName.replace('.pdf', '')], the cleaning of src/App.tsx. *)
Definition cleanFileName_pdf (fileName : jsstring) : jsstring :=
  replace fileName (js ".pdf") [].

(** The lower-case form of an ASCII capital; every other code unit is
    left alone.  Under the flag [i] of a regular expression without the
    flag [u], a code unit outside ASCII never matches an ASCII one, so
    on a pattern of ASCII letters and dots this is the whole of the case
    folding. *)
Definition lower (c : N) : N :=
  if N.leb 65 c && N.leb c 90 then (c + 32)%N else c.

(** Whether [s], all of it, is [pat] up to case; [pat] is in lower
    case. *)
Fixpoint same_ci (s pat : jsstring) : bool :=
  match s, pat with
  | [], [] => true
  | c :: s', p :: pat' => N.eqb (lower c) p && same_ci s' pat'
  | _, _ => false
  end.

(** Whether the pattern [\.(pdf|png|jpg|jpeg)$] with the flag [i]
    matches at the start of [s]: the dollar makes the match run to the
    end of the name. *)
Definition is_extension (s : jsstring) : bool :=
  same_ci s (js ".pdf") || same_ci s (js ".png")
  || same_ci s (js ".jpg") || same_ci s (js ".jpeg").

(** [fileName.replace(/\.(pdf|png|jpg|jpeg)$/i, '')], the cleaning of
    the later variant of the application: the match at the leftmost
    position that has one is replaced by the empty string. *)
Fixpoint cleanFileName_ext (fileName : jsstring) : jsstring :=
  if is_extension fileName then []
  else match fileName with
       | [] => []
       | c :: r => c :: cleanFileName_ext r
       end.

End FileName.

(** ** The spreadsheet emitter (generateExcel) *)

Module Excel.

(** [v.headers] and [v.rows]: [None] stands for the TypeError of a
    property read on [null] or [undefined].  No prototype has a property
    of either name, so a value that is not an object answers
    [undefined]. *)
Definition get_prop (v : JsValue) (key : jsstring) : option JsValue :=
  match v with
  | JUndefined | JNull => None
  | JObject props => Some (lookup key props)
  | _ => Some JUndefined
  end.

Definition is_high_surrogate (c : N) : bool := N.leb 55296 c && N.leb c 56319.
Definition is_low_surrogate (c : N) : bool := N.leb 56320 c && N.leb c 57343.

(** The strings a string iterates over: its code points, a surrogate
    pair being one of them. *)
Fixpoint code_points (s : jsstring) : list jsstring :=
  match s with
  | [] => []
  | c :: r =>
      if is_high_surrogate c then
        match r with
        | d :: r' =>
            if is_low_surrogate d then [c; d] :: code_points r'
            else [c] :: code_points r
        | [] => [[c]]
        end
      else [c] :: code_points r
  end.

(** [...v] in an array literal: arrays and strings are iterable, the
    other values [JSON.parse] returns are not ([None], a TypeError). *)
Definition spread (v : JsValue) : option (list JsValue) :=
  match v with
  | JArray elems => Some elems
  | JString s => Some (map JString (code_points s))
  | _ => None
  end.

(** [[table.headers, ...table.rows]], the array of arrays handed to
    [XLSX.utils.aoa_to_sheet]. *)
Definition sheet_data (table : JsValue) : option (list JsValue) :=
  match get_prop table (js "headers") with
  | None => None
  | Some headers =>
      match get_prop table (js "rows") with
      | None => None
      | Some rows =>
          match spread rows with
          | None => None
          | Some rs => Some (headers :: rs)
          end
      end
  end.

(** A sheet as it is appended to the workbook: its name and its data. *)
Record Sheet := { sheet_name : jsstring; sheet_rows : list JsValue }.

(** [tables.forEach((table, index) => ...)] from [index] on: the sheets
    appended, or [None] when the callback throws. *)
Fixpoint sheets_from (index : nat) (tables : list JsValue)
  : option (list Sheet) :=
  match tables with
  | [] => Some []
  | t :: rest =>
      match sheet_data t with
      | None => None
      | Some d =>
          match sheets_from (S index) rest with
          | None => None
          | Some ss =>
              Some ({| sheet_name := js "Table " ++ decimal (index + 1);
                       sheet_rows := d |} :: ss)
          end
      end
  end.

Definition info_sheet : Sheet :=
  {| sheet_name := js "Info";
     sheet_rows := [JArray [JString (js "No tables found by AI")]] |}.

(** [generateExcel(tables, filename)] up to the library: the name and
    the sheets of the workbook handed to [XLSX.writeFile], or [None]
    when an expression of the function itself throws, in which case
    [XLSX.writeFile] is not reached.  What the library does with the
    data it is given is not part of the model. *)
Definition generateExcel (tables : list JsValue) (filename : jsstring)
  : option (jsstring * list Sheet) :=
  match tables with
  | [] => Some (filename ++ js ".xlsx", [info_sheet])
  | _ :: _ =>
      match sheets_from 0 tables with
      | Some ss => Some (filename ++ js ".xlsx", ss)
      | None => None
      end
  end.

(** An element of which the data of a sheet can be built: an object
    whose [rows] is an array or a string, the values that can be
    spread. *)
Definition writable (t : JsValue) : bool :=
  match t with
  | JObject props =>
      match lookup (js "rows") props with
      | JArray _ | JString _ => true
      | _ => false
      end
  | _ => false
  end.

End Excel.

(** ** The inference request (processPageWithGemini) *)

Module Gemini.

(** [imageData.split(',')[1]]; [None] is [undefined]. *)
Definition base64Data (imageData : jsstring) : option jsstring :=
  nth_error (split 44 imageData) 1.

Definition no_comma (s : jsstring) : bool :=
  forallb (fun c => negb (N.eqb c 44)) s.

(** The part of [s] before its first comma. *)
Fixpoint up_to_comma (s : jsstring) : jsstring :=
  match s with
  | [] => []
  | c :: r => if N.eqb c 44 then [] else c :: up_to_comma r
  end.

End Gemini.

(** ** The handlers and the view of the component *)

Module View.

(** [handleManualDownload]: the download is started and not awaited, so
    what the emitter throws reaches neither the status nor the caller. *)
Definition handleManualDownload
           (env : Env) (file : option File) (target : ConversionTarget)
  : M unit :=
  fun st =>
    match file, conversionResult st with
    | Some f, Some d =>
        (inr tt, snd (triggerDownload env target d (name f) st))
    | _, _ => (inr tt, st)
    end.

(** The four bodies of the action area, in the order of the conditional
    chain of the JSX. *)
Inductive Panel :=
| Processing
| Success
| Failure (msg : jsstring)
| Ready.

Definition panel (s : ConversionStatus) : Panel :=
  if isProcessing s then Processing
  else if SFeqb (progress s) (num 100) then Success
  else match error s with
       | Some msg => if truthy msg then Failure msg else Ready
       | None => Ready
       end.

(** Whether the two target buttons are rendered:
    [!status.isProcessing && status.progress === 0]. *)
Definition target_selectable (s : ConversionStatus) : bool :=
  negb (isProcessing s) && SFeqb (progress s) (num 0).

(** The file chosen in the picker. *)
Record Upload := { upload_name : jsstring; upload_type : jsstring }.

(** The state [handleFileSelect] writes. *)
Record Selection := {
  sel_file : option Upload;
  sel_pages : list DocumentPage;
  sel_status : ConversionStatus;
  sel_result : option FinalData;
  sel_alert : option jsstring
}.

Definition ready_status : ConversionStatus :=
  {| step := js "Ready to convert"; progress := num 0;
     isProcessing := false; error := None |}.

Definition with_error (s : ConversionStatus) (msg : jsstring)
  : ConversionStatus :=
  {| step := step s; progress := progress s;
     isProcessing := isProcessing s; error := Some msg |}.

(** [handleFileSelect] of src/App.tsx, run without another handler in
    between.  [extraction] is how [extractPagesAsImages] settles: it
    throws, or it renders a document of [numPages] pages through
    [canvas]. *)
Definition handleFileSelect_pdf
           (selected : option Upload)
           (extraction : JsError + nat * (nat -> option jsstring))
           (c : Selection) : Selection :=
  match selected with
  | Some file =>
      if JsString.eqb (upload_type file) (js "application/pdf") then
        match extraction with
        | inr (numPages, canvas) =>
            {| sel_file := Some file;
               sel_pages := extractPagesAsImages numPages canvas;
               sel_status := ready_status;
               sel_result := None;
               sel_alert := sel_alert c |}
        | inl _ =>
            {| sel_file := Some file;
               sel_pages := [];
               sel_status := with_error ready_status
                                        (js "Failed to preview PDF");
               sel_result := None;
               sel_alert := sel_alert c |}
        end
      else
        {| sel_file := sel_file c; sel_pages := sel_pages c;
           sel_status := sel_status c; sel_result := sel_result c;
           sel_alert := Some (js "Please upload a valid PDF file.") |}
  | None =>
      {| sel_file := sel_file c; sel_pages := sel_pages c;
         sel_status := sel_status c; sel_result := sel_result c;
         sel_alert := Some (js "Please upload a valid PDF file.") |}
  end.

(** [handleFileSelect] of the later variant: an image is one page, read
    by [fileToDataUrl], which settles as [reading]. *)
Definition handleFileSelect_any
           (selected : option Upload)
           (extraction : JsError + nat * (nat -> option jsstring))
           (reading : JsError + jsstring)
           (c : Selection) : Selection :=
  match selected with
  | Some file =>
      let isPdf := JsString.eqb (upload_type file) (js "application/pdf") in
      let isImage := startsWith (upload_type file) (js "image/") in
      if isPdf || isImage then
        let outcome :=
          if isPdf then
            match extraction with
            | inr (numPages, canvas) =>
                inr (extractPagesAsImages numPages canvas)
            | inl e => inl e
            end
          else
            match reading with
            | inr url => inr [ {| index := 1; dataUrl := url |} ]
            | inl e => inl e
            end in
        match outcome with
        | inr pages =>
            {| sel_file := Some file; sel_pages := pages;
               sel_status := ready_status; sel_result := None;
               sel_alert := sel_alert c |}
        | inl _ =>
            {| sel_file := Some file; sel_pages := [];
               sel_status := with_error ready_status
                                        (js "Failed to process file");
               sel_result := None; sel_alert := sel_alert c |}
        end
      else
        {| sel_file := sel_file c; sel_pages := sel_pages c;
           sel_status := sel_status c; sel_result := sel_result c;
           sel_alert :=
             Some (js "Please upload a valid PDF or Image file (PNG, JPG).") |}
  | None => c
  end.

End View.

Module Wiring.

(** The collaborators of src/App.tsx with the spreadsheet emitter as it
    is modelled: it throws when building the sheets throws (the message
    is the engine's), the word emitter does not throw, and the name is
    cleaned by [replace('.pdf', '')]. *)
Definition env_modelled
           (oracle : nat -> jsstring -> ConversionTarget -> JsError + jsstring)
  : Env :=
  {| infer := oracle;
     excel := fun tables filename =>
                match Excel.generateExcel tables filename with
                | None => Some {| message := js "table.rows is not iterable" |}
                | Some _ => None
                end;
     word := fun _ _ => None;
     clean := FileName.cleanFileName_pdf |}.

End Wiring.

(** * Properties *)

Unset Implicit Arguments.

(** ** Numbers *)

Section NumberFacts.

Local Open Scope Z_scope.

Lemma digits2_size (p : positive) : digits2_pos p = Pos.size p.
Proof. induction p; simpl; congruence. Qed.

Lemma digits2_bounds (p : positive) :
  2 ^ (Zpos (digits2_pos p) - 1) <= Zpos p < 2 ^ Zpos (digits2_pos p).
Proof.
  rewrite digits2_size.
  pose proof (Pos.size_gt p) as Hgt. pose proof (Pos.size_le p) as Hle.
  apply Pos2Z.pos_lt_pos in Hgt. apply Pos2Z.pos_le_pos in Hle.
  rewrite Pos2Z.inj_pow in Hgt, Hle.
  change (Z.pos 2) with 2 in Hle.
  replace (Z.pos p~0) with (2 * Z.pos p) in Hle by reflexivity.
  replace (2 ^ Zpos (Pos.size p)) with (2 * 2 ^ (Zpos (Pos.size p) - 1))
    in Hle at 1.
  - lia.
  - rewrite <- Z.pow_succ_r by lia. f_equal. lia.
Qed.

Lemma digits2_unique (p : positive) (d : Z) :
  2 ^ (d - 1) <= Zpos p < 2 ^ d -> Zpos (digits2_pos p) = d.
Proof.
  intros [Hlo Hhi]. pose proof (digits2_bounds p) as [Hl Hh].
  set (k := Zpos (digits2_pos p)) in *.
  assert (0 < k) by (subst k; lia).
  destruct (Z.lt_trichotomy k d) as [Hlt|[Heq|Hgt]]; [|assumption|].
  - assert (2 ^ k <= 2 ^ (d - 1)) by (apply Z.pow_le_mono_r; lia). lia.
  - assert (0 <= d \/ d < 0) as [Hd|Hd] by lia.
    + assert (2 ^ d <= 2 ^ (k - 1)) by (apply Z.pow_le_mono_r; lia). lia.
    + rewrite (Z.pow_neg_r 2 d) in Hhi by lia. lia.
Qed.

(** shr_1 halves the mantissa *)
Lemma shr_1_m (r : shr_record) :
  0 <= shr_m r -> shr_m (shr_1 r) = shr_m r / 2 /\ 0 <= shr_m (shr_1 r).
Proof.
  destruct r as [m rb sb]. simpl. intros Hm.
  destruct m as [|p|p]; [simpl; split; [reflexivity|lia]| |lia].
  destruct p; simpl.
  - rewrite Pos2Z.inj_xI. split; [|lia].
    apply Z.div_unique with (r := 1); lia.
  - rewrite Pos2Z.inj_xO. split; [|lia].
    apply Z.div_unique with (r := 0); lia.
  - split; [reflexivity|lia].
Qed.

Lemma iter_pos_nat {A : Type} (f : A -> A) (p : positive) :
  forall x, SpecFloat.iter_pos f p x = Nat.iter (Pos.to_nat p) f x.
Proof.
  induction p as [p IH|p IH|]; intros x; cbn [SpecFloat.iter_pos].
  - rewrite !IH. rewrite Pos2Nat.inj_xI.
    replace (S (2 * Pos.to_nat p))%nat
      with (Pos.to_nat p + (Pos.to_nat p + 1))%nat by lia.
    rewrite !Nat.iter_add. reflexivity.
  - rewrite !IH. rewrite Pos2Nat.inj_xO.
    replace (2 * Pos.to_nat p)%nat
      with (Pos.to_nat p + Pos.to_nat p)%nat by lia.
    rewrite Nat.iter_add. reflexivity.
  - reflexivity.
Qed.

Lemma shr_iter_m (k : nat) (r : shr_record) :
  0 <= shr_m r ->
  shr_m (Nat.iter k shr_1 r) = shr_m r / 2 ^ Z.of_nat k
  /\ 0 <= shr_m (Nat.iter k shr_1 r).
Proof.
  intros Hm. induction k as [|k [IHm IHp]].
  - simpl. rewrite Z.div_1_r. auto.
  - rewrite Nat.iter_succ. destruct (shr_1_m _ IHp) as [E P].
    split; [|assumption]. rewrite E, IHm.
    rewrite Nat2Z.inj_succ, Z.pow_succ_r by lia.
    rewrite Z.div_div by lia. f_equal. lia.
Qed.

(** the mantissa after [shr] by [n] bits *)
Lemma shr_m_spec (r : shr_record) (e n : Z) :
  0 <= shr_m r -> 0 <= n ->
  shr_m (fst (shr r e n)) = shr_m r / 2 ^ n /\ snd (shr r e n) = e + n.
Proof.
  intros Hm Hn. unfold shr. destruct n as [|p|p]; [| |lia].
  - simpl. rewrite Z.div_1_r. split; [reflexivity|lia].
  - simpl. rewrite iter_pos_nat.
    destruct (shr_iter_m (Pos.to_nat p) r Hm) as [E _].
    rewrite E, positive_nat_Z. auto.
Qed.

Lemma shr_record_of_loc_m (m : Z) (l : location) :
  shr_m (shr_record_of_loc m l) = m.
Proof. destruct l as [|[]]; reflexivity. Qed.

Lemma round_nearest_even_cases (m : Z) (l : location) :
  round_nearest_even m l = m \/ round_nearest_even m l = m + 1.
Proof.
  destruct l as [|[]]; simpl; auto.
  destruct (Z.even m); auto.
Qed.

Lemma fexp_normal (e : Z) : -1074 <= e - 53 -> fexp prec emax e = e - 53.
Proof. unfold fexp, emin, prec, emax. lia. Qed.

(** The first shift of binary_round_aux brings a mantissa of [53 + n]
    digits down to 53 digits. *)
Lemma shr_fexp_spec (mx ex : Z) (lx : location) (n : Z) :
  0 < mx -> 0 <= n -> Zdigits2 mx = 53 + n -> -1074 <= ex + n ->
  shr_m (fst (shr_fexp prec emax mx ex lx)) = mx / 2 ^ n
  /\ snd (shr_fexp prec emax mx ex lx) = ex + n
  /\ 2 ^ 52 <= mx / 2 ^ n < 2 ^ 53.
Proof.
  intros Hmx Hn Hd He. unfold shr_fexp.
  rewrite Hd, fexp_normal by lia.
  replace (53 + n + ex - 53 - ex) with n by lia.
  destruct (shr_m_spec (shr_record_of_loc mx lx) ex n) as [Em Ee];
    [rewrite shr_record_of_loc_m; lia|assumption|].
  rewrite shr_record_of_loc_m in Em. split; [assumption|].
  split; [assumption|].
  destruct mx as [|p|p]; try lia. cbn [Zdigits2] in Hd.
  pose proof (digits2_bounds p) as [Hlo Hhi]. rewrite Hd in Hlo, Hhi.
  replace (53 + n - 1) with (52 + n) in Hlo by lia.
  rewrite Z.pow_add_r in Hlo, Hhi by lia.
  assert (0 < 2 ^ n) by (apply Z.pow_pos_nonneg; lia).
  split.
  - apply Z.div_le_lower_bound; lia.
  - apply Z.div_lt_upper_bound; lia.
Qed.

(** Rounding is faithful: the result is the 53-bit truncation of the
    mantissa or its successor. *)
Lemma binary_round_aux_faithful (mx ex : Z) (lx : location) (n : Z) :
  0 < mx -> 0 <= n -> Zdigits2 mx = 53 + n ->
  -1074 <= ex + n -> ex + n + 1 <= 971 ->
  let t := mx / 2 ^ n in
  2 ^ 52 <= t < 2 ^ 53 /\
  exists m e,
    binary_round_aux prec emax false mx ex lx = S754_finite false m e
    /\ 2 ^ 52 <= Zpos m < 2 ^ 53
    /\ ((Zpos m = t /\ e = ex + n)
        \/ (Zpos m = t + 1 /\ e = ex + n)
        \/ (t + 1 = 2 ^ 53 /\ Zpos m = 2 ^ 52 /\ e = ex + n + 1))
    /\ (lx = loc_Exact -> n = 0 -> Zpos m = mx /\ e = ex).
Proof.
  intros Hmx Hn Hd He Hmax t.
  destruct (shr_fexp_spec mx ex lx n Hmx Hn Hd He) as (Em & Ee & Ht).
  fold t in Em, Ht. split; [assumption|].
  unfold binary_round_aux.
  destruct (shr_fexp prec emax mx ex lx) as [mrs' e'] eqn:E1.
  cbn [fst snd] in Em, Ee. subst e'.
  set (m2 := round_nearest_even (shr_m mrs') (loc_of_shr_record mrs')).
  assert (Hm2 : m2 = t \/ m2 = t + 1).
  { subst m2. rewrite <- Em. apply round_nearest_even_cases. }
  assert (Hexact : lx = loc_Exact -> n = 0 -> m2 = mx).
  { intros -> ->. unfold shr_fexp in E1. rewrite Hd in E1.
    rewrite fexp_normal in E1 by lia.
    replace (53 + 0 + ex - 53 - ex) with 0 in E1 by lia.
    cbn in E1. injection E1 as <- _. reflexivity. }
  destruct (Z_lt_le_dec m2 (2 ^ 53)) as [Hlt|Hge].
  - (* no carry *)
    assert (Hd2 : Zdigits2 m2 = 53 + 0).
    { destruct m2 as [|p|p]; try lia. cbn [Zdigits2].
      apply digits2_unique. lia. }
    destruct (shr_fexp_spec m2 (ex + n) loc_Exact 0) as (Em' & Ee' & _);
      try lia.
    destruct (shr_fexp prec emax m2 (ex + n) loc_Exact) as [mrs'' e''] eqn:E2.
    cbn [fst snd] in Em', Ee'. rewrite Z.div_1_r in Em'.
    rewrite Em'. destruct m2 as [|p|p]; try lia.
    exists p, e''. subst e''.
    replace (ex + n + 0 <=? emax - prec) with true
      by (symmetry; apply Z.leb_le; unfold emax, prec; lia).
    split; [reflexivity|]. split; [lia|]. split.
    + destruct Hm2 as [->| ->]; [left|right; left]; split; lia.
    + intros Hl Hz. rewrite (Hexact Hl Hz). lia.
  - (* the mantissa was rounded up to 2^53 *)
    assert (Em2 : m2 = 2 ^ 53) by lia.
    assert (Hd2 : Zdigits2 m2 = 53 + 1).
    { rewrite Em2. reflexivity. }
    destruct (shr_fexp_spec m2 (ex + n) loc_Exact 1) as (Em' & Ee' & _);
      try lia.
    destruct (shr_fexp prec emax m2 (ex + n) loc_Exact) as [mrs'' e''] eqn:E2.
    cbn [fst snd] in Em', Ee'. rewrite Em', Em2.
    change (2 ^ 53 / 2 ^ 1) with (Zpos (2 ^ 52)).
    exists (2 ^ 52)%positive, e''. subst e''.
    replace (ex + n + 1 <=? emax - prec) with true
      by (symmetry; apply Z.leb_le; unfold emax, prec; lia).
    split; [reflexivity|]. split; [lia|]. split.
    + right; right. repeat split; lia.
    + intros Hl Hz. specialize (Hexact Hl Hz). subst n.
      unfold t in Ht. rewrite Z.pow_0_r, Z.div_1_r in Ht. lia.
Qed.

(** *** Integer literals *)

Lemma iter_xO (k : positive) (p : positive) :
  Zpos (Pos.iter xO p k) = Zpos p * 2 ^ Zpos k.
Proof.
  induction k as [|k IH] using Pos.peano_ind.
  - cbn. lia.
  - rewrite Pos.iter_succ, Pos2Z.inj_xO, IH, Pos2Z.inj_succ.
    rewrite Z.pow_succ_r by lia. lia.
Qed.

Lemma num_normal (z : Z) :
  0 < z < 2 ^ 53 ->
  exists m e, normal53 (num z) m e /\ -52 <= e <= 0
              /\ Zpos m = z * 2 ^ (- e).
Proof.
  intros Hz. destruct z as [|p|p]; try lia.
  unfold num, binary_normalize, binary_round.
  pose proof (digits2_bounds p) as [Hlo Hhi].
  set (d := Zpos (digits2_pos p)) in *.
  assert (Hd : 1 <= d <= 53).
  { split; [subst d; lia|].
    destruct (Z_le_gt_dec d 53) as [H|H]; [assumption|].
    assert (2 ^ 53 <= 2 ^ (d - 1)) by (apply Z.pow_le_mono_r; lia). lia. }
  rewrite Z.add_0_r, fexp_normal by lia.
  unfold shl_align.
  destruct (d - 53 - 0) as [|k|k] eqn:Ek; try lia.
  - (* already 53 digits *)
    destruct (binary_round_aux_faithful (Zpos p) 0 loc_Exact 0)
      as (_ & m & e & Eq & Hm & _ & Hex); try lia.
    { cbn [Zdigits2]. fold d. lia. }
    destruct (Hex eq_refl eq_refl) as [Em Ee].
    exists m, e. split; [split; assumption|]. split; [lia|].
    rewrite Em, Ee. cbn. lia.
  - (* shifted left by 53 - d *)
    assert (Hk : Zpos k = 53 - d) by lia.
    pose proof (iter_xO k p) as Hshift.
    set (mz := Pos.iter xO p k) in *.
    assert (Hmz : 2 ^ 52 <= Zpos mz < 2 ^ 53).
    { rewrite Hshift, Hk. split.
      - replace 52 with ((d - 1) + (53 - d)) by lia.
        rewrite Z.pow_add_r by lia.
        apply Z.mul_le_mono_nonneg_r; [apply Z.pow_nonneg|]; lia.
      - replace 53 with (d + (53 - d)) at 2 by lia.
        rewrite Z.pow_add_r by lia.
        apply Z.mul_lt_mono_pos_r; [apply Z.pow_pos_nonneg|]; lia. }
    destruct (binary_round_aux_faithful (Zpos mz) (d - 53) loc_Exact 0)
      as (_ & m & e & Eq & Hm & _ & Hex); try lia.
    { cbn [Zdigits2]. rewrite (digits2_unique mz 53); lia. }
    destruct (Hex eq_refl eq_refl) as [Em Ee].
    exists m, e. split; [split; assumption|]. split; [lia|].
    rewrite Em, Ee, Hshift, Hk. f_equal. f_equal. lia.
Qed.

(** The rounded result as an integer at the scale of the input: it is
    within one part in 2^52 of the mantissa that was rounded. *)
Lemma binary_round_aux_bounds (mx ex : Z) (lx : location) (n : Z) :
  0 < mx -> 0 <= n -> Zdigits2 mx = 53 + n ->
  -1074 <= ex + n -> ex + n + 1 <= 971 ->
  exists m e,
    binary_round_aux prec emax false mx ex lx = S754_finite false m e
    /\ 2 ^ 52 <= Zpos m < 2 ^ 53
    /\ ex + n <= e <= ex + n + 1
    /\ (2 ^ 52 - 1) * (mx + 1) <= 2 ^ 52 * (Zpos m * 2 ^ (e - ex))
    /\ 2 ^ 52 * (Zpos m * 2 ^ (e - ex)) <= (2 ^ 52 + 1) * mx.
Proof.
  intros Hmx Hn Hd He Hmax.
  destruct (binary_round_aux_faithful mx ex lx n Hmx Hn Hd He Hmax)
    as (Ht & m & e & Eq & Hm & Hcases & _).
  exists m, e. split; [assumption|]. split; [assumption|].
  set (t := mx / 2 ^ n) in *.
  assert (HP : 0 < 2 ^ n) by (apply Z.pow_pos_nonneg; lia).
  pose proof (Z.div_mod mx (2 ^ n) ltac:(lia)) as Hdm. fold t in Hdm.
  pose proof (Z.mod_pos_bound mx (2 ^ n) HP) as Hr.
  set (P := 2 ^ n) in *. set (r := mx mod P) in *.
  destruct Hcases as [[Em Ee]|[[Em Ee]|(Et & Em & Ee)]].
  - subst e. replace (ex + n - ex) with n by lia. fold P. rewrite Em.
    split; [lia|]. split; nia.
  - subst e. replace (ex + n - ex) with n by lia. fold P. rewrite Em.
    split; [lia|]. split; nia.
  - subst e. replace (ex + n + 1 - ex) with (n + 1) by lia.
    rewrite Z.pow_add_r by lia. fold P. rewrite Em.
    split; [lia|]. change (2 ^ 1) with 2. split; nia.
Qed.

Lemma div_normal (a b : number) (ma mb : positive) (ea eb : Z) :
  normal53 a ma ea -> normal53 b mb eb ->
  -400 <= ea <= 400 -> -400 <= eb <= 400 ->
  exists m e,
    normal53 (div a b) m e
    /\ ea - eb - 53 <= e <= ea - eb - 51
    /\ (2 ^ 52 - 1) * (Zpos ma * 2 ^ 53)
       <= 2 ^ 52 * (Zpos m * 2 ^ (e - (ea - eb - 53)) * Zpos mb)
    /\ 2 ^ 52 * (Zpos m * 2 ^ (e - (ea - eb - 53)) * Zpos mb)
       <= (2 ^ 52 + 1) * (Zpos ma * 2 ^ 53).
Proof.
  intros [-> Ha] [-> Hb] Hea Heb.
  unfold div, SFdiv, SFdiv_core_binary. cbn [xorb Zdigits2].
  rewrite (digits2_unique ma 53), (digits2_unique mb 53) by lia.
  rewrite fexp_normal by lia.
  replace (Z.min (53 + ea - (53 + eb) - 53) (ea - eb))
    with (ea - eb - 53) by lia.
  replace (ea - eb - (ea - eb - 53)) with 53 by lia.
  rewrite Z.shiftl_mul_pow2 by lia.
  pose proof (Z_div_mod (Zpos ma * 2 ^ 53) (Zpos mb) ltac:(lia)) as Hqr.
  destruct (Z.div_eucl (Zpos ma * 2 ^ 53) (Zpos mb)) as [q r].
  destruct Hqr as [Hq Hr].
  assert (Hqb : 2 ^ 52 <= q < 2 ^ 54) by (split; nia).
  set (n := if Z_lt_le_dec q (2 ^ 53) then 0 else 1).
  assert (Hn : 0 <= n <= 1) by (subst n; destruct Z_lt_le_dec; lia).
  assert (Hd : Zdigits2 q = 53 + n).
  { destruct q as [|pq|pq]; try lia. cbn [Zdigits2].
    apply digits2_unique. subst n.
    destruct Z_lt_le_dec; [lia|]. change (2 ^ (53 + 1 - 1)) with (2 ^ 53).
    change (2 ^ (53 + 1)) with (2 ^ 54). lia. }
  destruct (binary_round_aux_bounds q (ea - eb - 53)
              (new_location (Zpos mb) r) n)
    as (m & e & Eq & Hm & He & Hlo & Hhi); try lia.
  exists m, e. split; [split; assumption|]. split; [lia|].
  set (M := Zpos m * 2 ^ (e - (ea - eb - 53))) in *.
  split; nia.
Qed.

Lemma mul_normal (a b : number) (ma mb : positive) (ea eb : Z) :
  normal53 a ma ea -> normal53 b mb eb ->
  -400 <= ea <= 400 -> -400 <= eb <= 400 ->
  exists m e,
    normal53 (mul a b) m e
    /\ ea + eb + 52 <= e <= ea + eb + 54
    /\ (2 ^ 52 - 1) * (Zpos ma * Zpos mb)
       <= 2 ^ 52 * (Zpos m * 2 ^ (e - (ea + eb)))
    /\ 2 ^ 52 * (Zpos m * 2 ^ (e - (ea + eb)))
       <= (2 ^ 52 + 1) * (Zpos ma * Zpos mb).
Proof.
  intros [-> Ha] [-> Hb] Hea Heb.
  unfold mul, SFmul. cbn [xorb].
  assert (Hp : 2 ^ 104 <= Zpos (ma * mb) < 2 ^ 106).
  { rewrite Pos2Z.inj_mul.
    change (2 ^ 104) with (2 ^ 52 * 2 ^ 52).
    change (2 ^ 106) with (2 ^ 53 * 2 ^ 53). split; nia. }
  set (n := if Z_lt_le_dec (Zpos (ma * mb)) (2 ^ 105) then 52 else 53).
  assert (Hn : 52 <= n <= 53) by (subst n; destruct Z_lt_le_dec; lia).
  assert (Hd : Zdigits2 (Zpos (ma * mb)) = 53 + n).
  { cbn [Zdigits2]. apply digits2_unique. subst n.
    destruct Z_lt_le_dec.
    - change (2 ^ (53 + 52 - 1)) with (2 ^ 104).
      change (2 ^ (53 + 52)) with (2 ^ 105). lia.
    - change (2 ^ (53 + 53 - 1)) with (2 ^ 105).
      change (2 ^ (53 + 53)) with (2 ^ 106). lia. }
  destruct (binary_round_aux_bounds (Zpos (ma * mb)) (ea + eb) loc_Exact n)
    as (m & e & Eq & Hm & He & Hlo & Hhi); try lia.
  exists m, e. split; [split; assumption|]. split; [lia|].
  rewrite Pos2Z.inj_mul in Hlo, Hhi.
  set (M := Zpos m * 2 ^ (e - (ea + eb))) in *.
  split; nia.
Qed.

(** *** Values *)

Lemma pow2_pos (e : Z) : (0 < 2 ^ e)%Q.
Proof. apply Qpower_0_lt. reflexivity. Qed.

Lemma pow2_add (a b : Z) : (2 ^ (a + b) == 2 ^ a * 2 ^ b)%Q.
Proof. apply Qpower_plus. discriminate. Qed.

Lemma val_scale (x : number) (m : positive) (e e0 : Z) :
  normal53 x m e -> e0 <= e ->
  (val x == inject_Z (Zpos m * 2 ^ (e - e0)) * 2 ^ e0)%Q.
Proof.
  intros [-> _] He. cbn [val].
  rewrite inject_Z_mult, Zpower_Qpower by lia.
  replace e with ((e - e0) + e0) at 1 by lia.
  rewrite pow2_add. change (inject_Z 2) with 2%Q. ring.
Qed.

Lemma val_pos (x : number) (m : positive) (e : Z) :
  normal53 x m e -> (0 < val x)%Q.
Proof.
  intros [-> _]. cbn [val].
  apply Qmult_lt_0_compat; [reflexivity|apply pow2_pos].
Qed.

Lemma val_num (z : Z) : 0 <= z < 2 ^ 53 -> (val (num z) == inject_Z z)%Q.
Proof.
  intros Hz. destruct (Z.eq_dec z 0) as [->|Hnz]; [reflexivity|].
  destruct (num_normal z ltac:(lia)) as (m & e & Hn & He & Em).
  rewrite (val_scale _ m e e Hn) by lia.
  rewrite Z.sub_diag, Z.mul_1_r, Em, inject_Z_mult, Zpower_Qpower by lia.
  change (inject_Z 2) with 2%Q.
  rewrite <- Qmult_assoc, <- pow2_add.
  replace (- e + e) with 0 by lia. change (2 ^ 0)%Q with 1%Q. ring.
Qed.

Lemma scaled_bounds (A B : Z) (s : Q) :
  (0 < s)%Q ->
  (2 ^ 52 - 1) * A <= 2 ^ 52 * B ->
  2 ^ 52 * B <= (2 ^ 52 + 1) * A ->
  ((1 - u52) * (inject_Z A * s) <= inject_Z B * s
   /\ inject_Z B * s <= (1 + u52) * (inject_Z A * s))%Q.
Proof.
  intros Hs H1 H2.
  assert (H1' : 2 ^ 52 * A <= 2 ^ 52 * B + A) by lia.
  assert (H2' : 2 ^ 52 * B <= 2 ^ 52 * A + A) by lia.
  clear H1 H2. rename H1' into H1. rename H2' into H2.
  rewrite Zle_Qle in H1, H2.
  rewrite !inject_Z_plus, !inject_Z_mult in H1, H2.
  change (inject_Z (2 ^ 52)) with (4503599627370496 # 1)%Q in H1, H2.
  change (inject_Z 1) with 1%Q in H1, H2.
  unfold u52. change (2 ^ 52)%positive with 4503599627370496%positive.
  set (a := inject_Z A) in *. set (b := inject_Z B) in *.
  split; nra.
Qed.

Lemma div_val (a b : number) (ma mb : positive) (ea eb : Z) :
  normal53 a ma ea -> normal53 b mb eb ->
  -400 <= ea <= 400 -> -400 <= eb <= 400 ->
  exists m e,
    normal53 (div a b) m e
    /\ ea - eb - 53 <= e <= ea - eb - 51
    /\ ((1 - u52) * val a <= val (div a b) * val b
        /\ val (div a b) * val b <= (1 + u52) * val a)%Q.
Proof.
  intros Ha Hb Hea Heb.
  destruct (div_normal a b ma mb ea eb Ha Hb Hea Heb)
    as (m & e & Hn & He & Hlo & Hhi).
  exists m, e. split; [assumption|]. split; [assumption|].
  rewrite (val_scale _ m e (ea - eb - 53) Hn) by lia.
  rewrite (val_scale b mb eb eb Hb) by lia.
  rewrite (val_scale a ma ea (ea - 53) Ha) by lia.
  rewrite Z.sub_diag, Z.mul_1_r.
  replace (ea - (ea - 53)) with 53 by lia.
  assert (E : (2 ^ (ea - 53) == 2 ^ (ea - eb - 53) * 2 ^ eb)%Q).
  { rewrite <- pow2_add. now replace (ea - eb - 53 + eb) with (ea - 53) by lia. }
  rewrite E.
  set (M := Zpos m * 2 ^ (e - (ea - eb - 53))) in *.
  destruct (scaled_bounds (Zpos ma * 2 ^ 53) (M * Zpos mb)
              (2 ^ (ea - eb - 53) * 2 ^ eb)%Q) as [L U]; try assumption.
  { apply Qmult_lt_0_compat; apply pow2_pos. }
  rewrite !inject_Z_mult in L, U. rewrite !inject_Z_mult.
  split; nra.
Qed.

Lemma mul_val (a b : number) (ma mb : positive) (ea eb : Z) :
  normal53 a ma ea -> normal53 b mb eb ->
  -400 <= ea <= 400 -> -400 <= eb <= 400 ->
  exists m e,
    normal53 (mul a b) m e
    /\ ea + eb + 52 <= e <= ea + eb + 54
    /\ ((1 - u52) * (val a * val b) <= val (mul a b)
        /\ val (mul a b) <= (1 + u52) * (val a * val b))%Q.
Proof.
  intros Ha Hb Hea Heb.
  destruct (mul_normal a b ma mb ea eb Ha Hb Hea Heb)
    as (m & e & Hn & He & Hlo & Hhi).
  exists m, e. split; [assumption|]. split; [assumption|].
  rewrite (val_scale _ m e (ea + eb) Hn) by lia.
  rewrite (val_scale b mb eb eb Hb) by lia.
  rewrite (val_scale a ma ea ea Ha) by lia.
  rewrite !Z.sub_diag, !Z.mul_1_r.
  rewrite pow2_add.
  set (M := Zpos m * 2 ^ (e - (ea + eb))) in *.
  destruct (scaled_bounds (Zpos ma * Zpos mb) M (2 ^ ea * 2 ^ eb)%Q)
    as [L U]; try assumption.
  { apply Qmult_lt_0_compat; apply pow2_pos. }
  rewrite !inject_Z_mult in L, U.
  split; nra.
Qed.

(** *** Floor, order and the sum with 5 *)

Lemma normal_small_exponent (y : number) (m : positive) (e : Z) :
  normal53 y m e -> (val y < inject_Z (2 ^ 52))%Q -> e < 0.
Proof.
  intros Hn Hv. destruct (Z_lt_le_dec e 0) as [H|H]; [assumption|exfalso].
  destruct Hn as [-> Hm]. cbn [val] in Hv.
  assert (H1 : (1 <= 2 ^ e)%Q) by (apply Qpower_1_le; [discriminate|lia]).
  assert (H2 : (inject_Z (2 ^ 52) <= inject_Z (Zpos m))%Q)
    by (rewrite <- Zle_Qle; lia).
  assert (H3 : (0 <= inject_Z (2 ^ 52))%Q) by discriminate.
  nra.
Qed.

Lemma floor_normal (y : number) (m : positive) (e : Z) :
  normal53 y m e -> e < 0 ->
  exists k, floor y = num k /\ 0 <= k
            /\ (inject_Z k <= val y /\ val y < inject_Z (k + 1))%Q.
Proof.
  intros Hn He. pose proof Hn as [-> Hm].
  exists (Zpos m / 2 ^ (- e)). unfold floor.
  replace (0 <=? e) with false by (symmetry; apply Z.leb_gt; lia).
  cbn [cond_Zopp]. rewrite Z.shiftr_div_pow2 by lia.
  split; [reflexivity|].
  assert (HP : 0 < 2 ^ (- e)) by (apply Z.pow_pos_nonneg; lia).
  split; [apply Z.div_pos; lia|].
  pose proof (Z.div_mod (Zpos m) (2 ^ (- e)) ltac:(lia)) as Hdm.
  pose proof (Z.mod_pos_bound (Zpos m) (2 ^ (- e)) HP) as Hr.
  set (k := Zpos m / 2 ^ (- e)) in *. set (P := 2 ^ (- e)) in *.
  assert (Hv : (val (S754_finite false m e) * inject_Z P == inject_Z (Zpos m))%Q).
  { cbn [val]. subst P. rewrite Zpower_Qpower by lia.
    change (inject_Z 2) with 2%Q.
    rewrite <- Qmult_assoc, <- pow2_add.
    replace (e + - e) with 0 by lia. change (2 ^ 0)%Q with 1%Q. ring. }
  assert (HPq : (0 < inject_Z P)%Q) by (rewrite <- (Zlt_Qlt 0); lia).
  assert (H1 : (inject_Z k * inject_Z P <= inject_Z (Zpos m))%Q).
  { rewrite <- inject_Z_mult, <- Zle_Qle. lia. }
  assert (H2 : (inject_Z (Zpos m) < inject_Z (k + 1) * inject_Z P)%Q).
  { rewrite <- inject_Z_mult, <- Zlt_Qlt. lia. }
  set (v := val (S754_finite false m e)) in *.
  rewrite <- Hv in H1, H2. split.
  - apply Qmult_le_r with (z := inject_Z P); assumption.
  - apply Qmult_lt_r with (z := inject_Z P); assumption.
Qed.

Lemma leb_normal (a b : number) (ma mb : positive) (ea eb : Z) :
  normal53 a ma ea -> normal53 b mb eb ->
  (val a <= val b)%Q -> leb a b = true.
Proof.
  intros [-> Ha] [-> Hb] Hv. unfold leb, SFleb. cbn [SFcompare val] in *.
  destruct (Z.compare_spec ea eb) as [->|Hlt|Hgt]; [|reflexivity|exfalso].
  - rewrite Pos.compare_cont_spec. cbn [Pos.switch_Eq].
    destruct (Pos.compare_spec ma mb) as [E|E|E]; try reflexivity.
    exfalso. pose proof (pow2_pos eb) as Hp.
    assert (H : (inject_Z (Zpos mb) < inject_Z (Zpos ma))%Q)
      by (rewrite <- Zlt_Qlt; lia).
    nra.
  - assert (H1 : (2 ^ (eb + 1) <= 2 ^ ea)%Q)
      by (apply Qpower_le_compat_l; [lia|discriminate]).
    rewrite pow2_add in H1. change (2 ^ 1)%Q with 2%Q in H1.
    pose proof (pow2_pos eb) as Hp.
    assert (H2 : (inject_Z (2 ^ 52) <= inject_Z (Zpos ma))%Q)
      by (rewrite <- Zle_Qle; lia).
    assert (H3 : (inject_Z (Zpos mb) < inject_Z (2 ^ 53))%Q)
      by (rewrite <- Zlt_Qlt; lia).
    change (inject_Z (2 ^ 52)) with (4503599627370496 # 1)%Q in H2.
    change (inject_Z (2 ^ 53)) with (9007199254740992 # 1)%Q in H3.
    set (x := inject_Z (Zpos ma)) in *. set (y := inject_Z (Zpos mb)) in *.
    nra.
Qed.

Lemma leb_num (a b : Z) : 0 <= a <= b -> b < 2 ^ 53 -> leb (num a) (num b) = true.
Proof.
  intros Hab Hb. destruct (Z.eq_dec a 0) as [->|Ha].
  - destruct (Z.eq_dec b 0) as [->|Hb0]; [reflexivity|].
    destruct (num_normal b ltac:(lia)) as (m & e & [-> _] & _).
    reflexivity.
  - destruct (num_normal a ltac:(lia)) as (ma & ea & Hna & _).
    destruct (num_normal b ltac:(lia)) as (mb & eb & Hnb & _).
    apply (leb_normal _ _ ma mb ea eb Hna Hnb).
    rewrite !val_num by lia. rewrite <- Zle_Qle. lia.
Qed.

Lemma add_5_small (k : Z) : 0 <= k <= 90 -> add (num 5) (num k) = num (5 + k).
Proof.
  intros Hk. rewrite <- (Z2Nat.id k) by lia.
  assert (Hn : (Z.to_nat k <= 90)%nat) by lia.
  generalize dependent (Z.to_nat k). clear k Hk. intros n Hn.
  do 91 (destruct n as [|n]; [vm_compute; reflexivity|]).
  lia.
Qed.

(** *** The progress of the loop *)

Lemma scaled_zero (n : nat) : (0 < n)%nat -> Z.of_nat n < 2 ^ 53 ->
  scaled 0 n = S754_zero false.
Proof.
  intros Hn Hb. unfold scaled.
  destruct (num_normal (Z.of_nat n) ltac:(lia)) as (m & e & [-> _] & _).
  destruct (num_normal 85 ltac:(lia)) as (m' & e' & [-> _] & _).
  reflexivity.
Qed.

Lemma scaled_bounds_pos (i n : nat) :
  (1 <= i < n)%nat -> Z.of_nat n < 2 ^ 32 ->
  exists m e,
    normal53 (scaled i n) m e
    /\ ((1 - u52) * (1 - u52) * (85 * inject_Z (Z.of_nat i))
        <= inject_Z (Z.of_nat n) * val (scaled i n)
        /\ inject_Z (Z.of_nat n) * val (scaled i n)
           <= (1 + u52) * (1 + u52) * (85 * inject_Z (Z.of_nat i)))%Q.
Proof.
  intros Hi Hn. unfold scaled.
  assert (H32 : 2 ^ 32 < 2 ^ 53) by reflexivity.
  destruct (num_normal (Z.of_nat i) ltac:(lia)) as (mi & ei & Hni & Hei & _).
  destruct (num_normal (Z.of_nat n) ltac:(lia)) as (mn & en & Hnn & Hen & _).
  destruct (num_normal 85 ltac:(lia)) as (mc & ec & Hnc & Hec & _).
  destruct (div_val _ _ mi mn ei en Hni Hnn ltac:(lia) ltac:(lia))
    as (mq & eq & Hnq & Heq & Lq & Uq).
  destruct (mul_val _ _ mq mc eq ec Hnq Hnc ltac:(lia) ltac:(lia))
    as (my & ey & Hny & Hey & Ly & Uy).
  exists my, ey. split; [assumption|].
  rewrite !val_num in * by lia.
  pose proof (val_pos _ _ _ Hnq) as Hq.
  assert (Hnpos : (0 < inject_Z (Z.of_nat n))%Q)
    by (rewrite <- (Zlt_Qlt 0); lia).
  change (inject_Z 85) with 85%Q in *.
  set (q := val (div (num (Z.of_nat i)) (num (Z.of_nat n)))) in *.
  set (y := val (mul (div (num (Z.of_nat i)) (num (Z.of_nat n))) (num 85)))
    in *.
  set (N := inject_Z (Z.of_nat n)) in *. set (I := inject_Z (Z.of_nat i)) in *.
  unfold u52 in *. change (2 ^ 52)%positive with 4503599627370496%positive in *.
  split; nra.
Qed.

Lemma scaled_below_85 (i n : nat) :
  (1 <= i < n)%nat -> Z.of_nat n < 2 ^ 32 -> (val (scaled i n) < 85)%Q.
Proof.
  intros Hi Hn.
  destruct (scaled_bounds_pos i n Hi Hn) as (m & e & _ & _ & U).
  assert (Hin : (inject_Z (Z.of_nat i) + 1 <= inject_Z (Z.of_nat n))%Q).
  { change 1%Q with (inject_Z 1). rewrite <- inject_Z_plus, <- Zle_Qle. lia. }
  assert (Hn32 : (inject_Z (Z.of_nat n) <= inject_Z (2 ^ 32))%Q)
    by (rewrite <- Zle_Qle; lia).
  assert (Hi0 : (1 <= inject_Z (Z.of_nat i))%Q).
  { change 1%Q with (inject_Z 1). rewrite <- Zle_Qle. lia. }
  change (inject_Z (2 ^ 32)) with (4294967296 # 1)%Q in Hn32.
  set (y := val (scaled i n)) in *.
  set (N := inject_Z (Z.of_nat n)) in *. set (I := inject_Z (Z.of_nat i)) in *.
  unfold u52 in *. change (2 ^ 52)%positive with 4503599627370496%positive in *.
  nra.
Qed.

Lemma scaled_monotone (i j n : nat) :
  (i <= j < n)%nat -> Z.of_nat n < 2 ^ 32 ->
  (val (scaled i n) <= val (scaled j n))%Q.
Proof.
  intros Hij Hn.
  destruct (Nat.eq_dec i j) as [->|Hne]; [apply Qle_refl|].
  destruct (Nat.eq_dec i 0) as [->|Hi0].
  - rewrite scaled_zero by lia.
    destruct (scaled_bounds_pos j n ltac:(lia) Hn) as (m & e & Hnj & _).
    apply Qlt_le_weak. exact (val_pos _ _ _ Hnj).
  - destruct (scaled_bounds_pos i n ltac:(lia) Hn) as (mi & ei & _ & _ & Ui).
    destruct (scaled_bounds_pos j n ltac:(lia) Hn) as (mj & ej & _ & Lj & _).
    assert (Hin : (inject_Z (Z.of_nat i) + 1 <= inject_Z (Z.of_nat j))%Q).
    { change 1%Q with (inject_Z 1).
      rewrite <- inject_Z_plus, <- Zle_Qle. lia. }
    assert (Hi32 : (inject_Z (Z.of_nat i) <= inject_Z (2 ^ 32))%Q)
      by (rewrite <- Zle_Qle; lia).
    assert (Hi1 : (1 <= inject_Z (Z.of_nat i))%Q).
    { change 1%Q with (inject_Z 1). rewrite <- Zle_Qle. lia. }
    assert (Hnpos : (0 < inject_Z (Z.of_nat n))%Q)
      by (rewrite <- (Zlt_Qlt 0); lia).
    change (inject_Z (2 ^ 32)) with (4294967296 # 1)%Q in Hi32.
    set (x := val (scaled i n)) in *. set (y := val (scaled j n)) in *.
    set (N := inject_Z (Z.of_nat n)) in *.
    set (I := inject_Z (Z.of_nat i)) in *.
    set (J := inject_Z (Z.of_nat j)) in *.
    unfold u52 in *.
    change (2 ^ 52)%positive with 4503599627370496%positive in *.
    apply Qmult_le_l with (z := N); [assumption|].
    eapply Qle_trans; [exact Ui|]. eapply Qle_trans; [|exact Lj].
    nra.
Qed.

Lemma percent_monotone (i j n : nat) :
  (i <= j < n)%nat -> Z.of_nat n < 2 ^ 32 -> percent i n <= percent j n.
Proof.
  intros Hij Hn. apply Qfloor_resp_le. now apply scaled_monotone.
Qed.

Lemma Qfloor_unique (x : Q) (k : Z) :
  (inject_Z k <= x)%Q -> (x < inject_Z (k + 1))%Q -> Qfloor x = k.
Proof.
  intros Hlo Hhi. apply Z.le_antisymm.
  - pose proof (Qfloor_le x) as H.
    assert (H' : (inject_Z (Qfloor x) < inject_Z (k + 1))%Q)
      by (eapply Qle_lt_trans; eassumption).
    rewrite <- Zlt_Qlt in H'. lia.
  - rewrite <- (Qfloor_Z k). now apply Qfloor_resp_le.
Qed.

(** The progress of page [i] of [n] as an integer. *)
Lemma page_progress_percent (i n : nat) :
  (i < n)%nat -> Z.of_nat n < 2 ^ 32 ->
  page_progress i n = num (5 + percent i n) /\ 0 <= percent i n <= 84.
Proof.
  intros Hi Hn. unfold page_progress, percent. fold (scaled i n).
  destruct (Nat.eq_dec i 0) as [->|Hi0].
  - rewrite scaled_zero by lia. cbn [floor val].
    split; [reflexivity|]. cbn. lia.
  - destruct (scaled_bounds_pos i n ltac:(lia) Hn) as (m & e & Hny & _).
    pose proof (scaled_below_85 i n ltac:(lia) Hn) as H85.
    assert (He : e < 0).
    { apply (normal_small_exponent _ m e Hny).
      eapply Qlt_trans; [exact H85|]. reflexivity. }
    destruct (floor_normal _ m e Hny He) as (k & Ek & Hk & Hlo & Hhi).
    rewrite (Qfloor_unique _ k Hlo Hhi), Ek.
    assert (Hk84 : k <= 84).
    { assert (H : (inject_Z k < inject_Z 85)%Q)
        by (eapply Qle_lt_trans; [exact Hlo|exact H85]).
      rewrite <- Zlt_Qlt in H. lia. }
    split; [apply add_5_small; lia|lia].
Qed.

(** A list of small integer Numbers ascends when the integers do. *)
Lemma nondecreasing_progress (g : nat -> Z) (len : nat) :
  forall (a : nat) (z0 : Z),
    0 <= z0 <= 95 ->
    (forall i, (a <= i < a + len)%nat -> z0 <= g i <= 95) ->
    (forall i j, (a <= i <= j)%nat -> (j < a + len)%nat -> g i <= g j) ->
    nondecreasing (num z0 :: map (fun i => num (g i)) (seq a len)
                         ++ [num 95; num 100]) = true.
Proof.
  induction len as [|len IH]; intros a z0 Hz Hb Hm.
  - cbn [seq map app nondecreasing].
    rewrite (leb_num z0 95) by (try reflexivity; lia).
    reflexivity.
  - cbn [seq map app]. cbn [nondecreasing].
    fold (nondecreasing (num (g a) :: map (fun i => num (g i)) (seq (S a) len)
                          ++ [num 95; num 100])).
    rewrite (leb_num z0 (g a)).
    + cbn [andb]. apply IH.
      * specialize (Hb a ltac:(lia)). lia.
      * intros i Hi. split; [apply Hm; lia|apply Hb; lia].
      * intros i j Hi Hj. apply Hm; lia.
    + specialize (Hb a ltac:(lia)). lia.
    + specialize (Hb a ltac:(lia)).
      assert (2 ^ 7 <= 2 ^ 53) by (apply Z.pow_le_mono_r; lia).
      change (2 ^ 7) with 128 in *. lia.
Qed.

(** For every length an array can have, the progress sequence of a
    successful run ascends. *)
Lemma progress_ascends (n : nat) :
  (1 <= n)%nat -> Z.of_nat n < 2 ^ 32 ->
  nondecreasing (num 5 :: map (fun i => page_progress i n) (seq 0 n)
                       ++ [num 95; num 100]) = true.
Proof.
  intros H1 Hn.
  rewrite (map_ext_in (fun i => page_progress i n)
             (fun i => num (5 + percent i n))).
  - apply (nondecreasing_progress (fun i => 5 + percent i n) n 0 5).
    + lia.
    + intros i Hi.
      destruct (page_progress_percent i n ltac:(lia) Hn) as [_ Hp]. lia.
    + intros i j Hi Hj.
      pose proof (percent_monotone i j n ltac:(lia) Hn). lia.
  - intros i Hi. apply in_seq in Hi.
    apply (page_progress_percent i n ltac:(lia) Hn).
Qed.

End NumberFacts.

(** ** Strings *)

Section StringFacts.

Lemma startsWith_app (p r : jsstring) : startsWith (p ++ r) p = true.
Proof.
  induction p as [|c p IH]; simpl; [reflexivity|].
  now rewrite N.eqb_refl, IH.
Qed.

Lemma replace_unfold (s pat rep : jsstring) :
  replace s pat rep =
  if startsWith s pat then rep ++ skipn (length pat) s
  else match s with
       | [] => []
       | c :: s' => c :: replace s' pat rep
       end.
Proof. destruct s; reflexivity. Qed.

Lemma skipn_prefix (p r : jsstring) : skipn (length p) (p ++ r) = r.
Proof. induction p; simpl; auto. Qed.

(** Replacing a prefix by the empty string removes it, once. *)
Lemma replace_prefix (p r : jsstring) : replace (p ++ r) p [] = r.
Proof.
  rewrite replace_unfold, startsWith_app. simpl. apply skipn_prefix.
Qed.

Lemma split_nonempty (sep : N) (s : jsstring) : split sep s <> [].
Proof.
  destruct s as [|c s]; simpl; [discriminate|].
  destruct (N.eqb c sep); [discriminate|].
  destruct (split sep s); discriminate.
Qed.

Lemma split_app (sep : N) (a b : jsstring) :
  split sep (a ++ sep :: b) = split sep a ++ split sep b.
Proof.
  induction a as [|c a IH]; simpl.
  - now rewrite N.eqb_refl.
  - destruct (N.eqb c sep).
    + now rewrite IH.
    + rewrite IH. pose proof (split_nonempty sep a) as Hne.
      destruct (split sep a); [contradiction|reflexivity].
Qed.

Lemma truthy_rev (s : jsstring) : truthy (rev s) = truthy s.
Proof.
  destruct s as [|c s]; simpl; [reflexivity|].
  destruct (rev s ++ [c]) eqn:E; [|reflexivity].
  apply app_eq_nil in E. destruct E; discriminate.
Qed.

Lemma forallb_rev (f : N -> bool) (s : jsstring) :
  forallb f (rev s) = forallb f s.
Proof.
  induction s as [|c s IH]; simpl; [reflexivity|].
  rewrite forallb_app, IH. simpl. rewrite andb_true_r. apply andb_comm.
Qed.

Lemma truthy_trimStart (s : jsstring) :
  truthy (trimStart s) = negb (forallb is_ws s).
Proof.
  induction s as [|c s IH]; simpl; [reflexivity|].
  destruct (is_ws c); simpl; auto.
Qed.

Lemma forallb_trimStart (s : jsstring) :
  forallb is_ws (trimStart s) = forallb is_ws s.
Proof.
  induction s as [|c s IH]; simpl; [reflexivity|].
  destruct (is_ws c) eqn:E; simpl; [assumption|now rewrite E].
Qed.

(** A trimmed line is falsy exactly when the line holds white space
    only. *)
Lemma truthy_trim (s : jsstring) :
  truthy (trim s) = negb (forallb is_ws s).
Proof.
  unfold trim, trimEnd.
  now rewrite truthy_rev, truthy_trimStart, forallb_rev, forallb_trimStart.
Qed.

Lemma startsWith_head (c p : N) (s pat : jsstring) :
  c <> p -> startsWith (c :: s) (p :: pat) = false.
Proof.
  intros H. simpl. apply N.eqb_neq in H. now rewrite H.
Qed.

Lemma join_cons2 (sep a b : jsstring) (rest : list jsstring) :
  join sep (a :: b :: rest) = a ++ sep ++ join sep (b :: rest).
Proof. reflexivity. Qed.

End StringFacts.

(** ** The line parser *)

Section LineParser.

Lemma push_line_blank (children : list Paragraph) (line : jsstring) :
  forallb is_ws line = true -> children <> [] ->
  push_line children line = children ++ [P_spacer].
Proof.
  intros Hws Hne. unfold push_line.
  rewrite truthy_trim, Hws. simpl.
  destruct children; [contradiction|reflexivity].
Qed.

Lemma not_ws_marker (c : N) :
  is_ws c = true -> c <> 35%N /\ c <> 45%N /\ c <> 42%N.
Proof. intros H. repeat split; intros ->; discriminate. Qed.

(** A line that begins with white space begins with no marker. *)
Lemma no_marker (c : N) (line : jsstring) :
  is_ws c = true ->
  startsWith (c :: line) (js "# ") = false /\
  startsWith (c :: line) (js "## ") = false /\
  startsWith (c :: line) (js "### ") = false /\
  startsWith (c :: line) (js "- ") = false /\
  startsWith (c :: line) (js "* ") = false.
Proof.
  intros H. destruct (not_ws_marker c H) as (H35 & H45 & H42).
  repeat split; apply startsWith_head; assumption.
Qed.

Lemma push_line_first_blank (line : jsstring) :
  forallb is_ws line = true -> push_line [] line = [P_run line 120].
Proof.
  intros Hws. unfold push_line. rewrite truthy_trim, Hws.
  cbn [negb andb length Nat.ltb Nat.leb app].
  destruct line as [|c line]; [reflexivity|].
  cbn [forallb] in Hws. apply andb_prop in Hws. destruct Hws as [Hc _].
  destruct (no_marker c line Hc) as (-> & -> & -> & -> & ->).
  reflexivity.
Qed.

(** A line that is not blank is classified by its prefix alone. *)
Lemma push_line_content (children : list Paragraph) (line : jsstring) :
  forallb is_ws line = false ->
  push_line children line =
  children ++
    [ if startsWith line (js "# ") then
        P_heading (replace line (js "# ") []) HEADING_1 240 120
      else if startsWith line (js "## ") then
        P_heading (replace line (js "## ") []) HEADING_2 200 100
      else if startsWith line (js "### ") then
        P_heading (replace line (js "### ") []) HEADING_3 180 90
      else if startsWith line (js "- ") || startsWith line (js "* ") then
        P_bullet (substring 2 line) 0
      else P_run line 120 ].
Proof.
  intros Hws. unfold push_line. rewrite truthy_trim, Hws. simpl.
  repeat match goal with |- context [if ?b then _ else _] =>
    destruct b; try reflexivity end.
Qed.

Lemma push_line_length (children : list Paragraph) (line : jsstring) :
  length (push_line children line) = S (length children).
Proof.
  unfold push_line.
  repeat match goal with |- context [if ?b then _ else _] =>
    destruct b end; rewrite length_app; simpl; lia.
Qed.

Lemma fold_push_length (lines : list jsstring) (children : list Paragraph) :
  length (fold_left push_line lines children)
  = length children + length lines.
Proof.
  revert children. induction lines as [|l lines IH]; intros; simpl.
  - lia.
  - rewrite IH, push_line_length. lia.
Qed.

Lemma parse_lines_app (a b : jsstring) :
  parse_lines (a ++ LF :: b)
  = fold_left push_line (split LF b) (parse_lines a).
Proof.
  unfold parse_lines. now rewrite split_app, fold_left_app.
Qed.

Lemma parse_lines_nonempty (md : jsstring) : parse_lines md <> [].
Proof.
  intros E. apply (f_equal (@length _)) in E.
  unfold parse_lines in E. rewrite fold_push_length in E. simpl in E.
  pose proof (split_nonempty LF md) as Hne.
  destruct (split LF md); [contradiction|simpl in E; lia].
Qed.

End LineParser.

(** ** Document assembly *)

Lemma push_line_page_break (children : list Paragraph) :
  push_line children PAGE_BREAK_LINE = children ++ [P_run PAGE_BREAK_LINE 120].
Proof. now rewrite push_line_content. Qed.

Lemma parse_lines_page_break (a y : jsstring) :
  parse_lines (a ++ PAGE_BREAK ++ y)
  = fold_left push_line (split LF y)
      (parse_lines a ++ [P_spacer; P_run PAGE_BREAK_LINE 120; P_spacer]).
Proof.
  change (a ++ PAGE_BREAK ++ y)
    with (a ++ LF :: ([] ++ LF :: (PAGE_BREAK_LINE ++ LF :: ([] ++ LF :: y)))).
  rewrite parse_lines_app, !split_app, !fold_left_app.
  change (split LF []) with [@nil N].
  change (split LF PAGE_BREAK_LINE) with [PAGE_BREAK_LINE].
  cbn [fold_left].
  pose proof (parse_lines_nonempty a) as Hne.
  rewrite (push_line_blank (parse_lines a) []); auto.
  rewrite push_line_page_break.
  rewrite (push_line_blank _ []); auto.
  - now rewrite <- !app_assoc.
  - intros E. apply app_eq_nil in E. destruct E; discriminate.
Qed.

(** C4. The combined text is the page results joined in page order with
    the separator between consecutive pages only: nothing for no page,
    the page itself for one page, and otherwise the first page, the
    separator and the join of the others.  The separator's own line
    [--- PAGE BREAK ---] is an ordinary paragraph to the line parser,
    wherever it stands, and the parse of a joined text is the parse of the
    first page followed by a spacer, that paragraph, a spacer and the
    lines of the remaining text. *)
Theorem document_concatenation :
  (forall results, assemble WORD results = Markdown (join PAGE_BREAK results)) /\
  PAGE_BREAK = [LF; LF] ++ js "--- PAGE BREAK ---" ++ [LF; LF] /\
  join PAGE_BREAK [] = [] /\
  (forall a, join PAGE_BREAK [a] = a) /\
  (forall a b rest,
      join PAGE_BREAK (a :: b :: rest)
      = a ++ PAGE_BREAK ++ join PAGE_BREAK (b :: rest)) /\
  (forall children,
      push_line children (js "--- PAGE BREAK ---")
      = children ++ [P_run (js "--- PAGE BREAK ---") 120]) /\
  block_of (P_run (js "--- PAGE BREAK ---") 120)
  = ParagraphBlock (js "--- PAGE BREAK ---") /\
  (forall a b rest,
      parse_lines (join PAGE_BREAK (a :: b :: rest))
      = fold_left push_line (split LF (join PAGE_BREAK (b :: rest)))
          (parse_lines a
             ++ [P_spacer; P_run (js "--- PAGE BREAK ---") 120; P_spacer])).
Proof.
  repeat split; try reflexivity; intros.
  rewrite join_cons2. apply parse_lines_page_break.
Qed.

(** The example of the specification: two pages, a heading, the page
    break. *)
Example document_assembly_example :
  let results := [js "# Title" ++ [LF] ++ js "Hello"; js "World"] in
  join PAGE_BREAK results
  = js "# Title" ++ [LF] ++ js "Hello" ++ [LF; LF]
      ++ js "--- PAGE BREAK ---" ++ [LF; LF] ++ js "World"
  /\ blocks (join PAGE_BREAK results)
     = [Heading 1 (js "Title"); ParagraphBlock (js "Hello"); Blank;
        ParagraphBlock (js "--- PAGE BREAK ---"); Blank;
        ParagraphBlock (js "World")].
Proof. split; reflexivity. Qed.

(** C5. A line that starts with [# ], [## ] or [### ] becomes a heading of
    level 1, 2 or 3 whose text is the line without that prefix, and a
    line that starts with [- ] or [* ] becomes a bullet item whose text
    is the line without its first two code units, whatever has been
    emitted before.  A line in which white space precedes one of these
    prefixes becomes an ordinary paragraph holding the whole line. *)
Theorem line_classification
  (children : list Paragraph) (rest indent marker : jsstring)
  (Hindent : indent <> [])
  (Hws : forallb is_ws indent = true)
  (Hmarker : In marker [js "# "; js "## "; js "### "; js "- "; js "* "]) :
  push_line children (js "# " ++ rest)
  = children ++ [P_heading rest HEADING_1 240 120] /\
  push_line children (js "## " ++ rest)
  = children ++ [P_heading rest HEADING_2 200 100] /\
  push_line children (js "### " ++ rest)
  = children ++ [P_heading rest HEADING_3 180 90] /\
  push_line children (js "- " ++ rest)
  = children ++ [P_bullet rest 0] /\
  push_line children (js "* " ++ rest)
  = children ++ [P_bullet rest 0] /\
  push_line children (indent ++ marker ++ rest)
  = children ++ [P_run (indent ++ marker ++ rest) 120].
Proof.
  repeat split.
  - rewrite push_line_content by reflexivity.
    now rewrite startsWith_app, replace_prefix.
  - rewrite push_line_content by reflexivity.
    change (startsWith (js "## " ++ rest) (js "# ")) with false.
    now rewrite startsWith_app, replace_prefix.
  - rewrite push_line_content by reflexivity.
    change (startsWith (js "### " ++ rest) (js "# ")) with false.
    change (startsWith (js "### " ++ rest) (js "## ")) with false.
    now rewrite startsWith_app, replace_prefix.
  - now rewrite push_line_content by reflexivity.
  - now rewrite push_line_content by reflexivity.
  - destruct indent as [|c indent]; [contradiction|].
    cbn [forallb] in Hws. apply andb_prop in Hws. destruct Hws as [Hc Hi].
    rewrite push_line_content.
    + change ((c :: indent) ++ marker ++ rest)
        with (c :: (indent ++ marker ++ rest)).
      destruct (no_marker c (indent ++ marker ++ rest) Hc)
        as (-> & -> & -> & -> & ->).
      reflexivity.
    + rewrite !forallb_app.
      assert (Hm : forallb is_ws marker = false).
      { cbn [In] in Hmarker.
        destruct Hmarker as [<-|[<-|[<-|[<-|[<-|[]]]]]]; reflexivity. }
      rewrite Hm. cbn [forallb app]. rewrite Hc, Hi. reflexivity.
Qed.

Lemma line_classification_witness :
  push_line [] (js "# " ++ js "Title") = [P_heading (js "Title") HEADING_1 240 120]
  /\ push_line [] (js "  " ++ js "# " ++ js "Title")
     = [P_run (js "  # Title") 120].
Proof.
  assert (Hi : js "  " <> []) by discriminate.
  assert (Hw : forallb is_ws (js "  ") = true) by reflexivity.
  assert (Hm : In (js "# ") [js "# "; js "## "; js "### "; js "- "; js "* "])
    by (left; reflexivity).
  pose proof (line_classification [] (js "Title") (js "  ") (js "# ")
                Hi Hw Hm) as H.
  split; [exact (proj1 H) | exact (proj2 (proj2 (proj2 (proj2 (proj2 H)))))].
Defined.

(** C6, on the input the code gets wrong.  A blank line that follows an
    emitted paragraph becomes a spacer, one per line
    ([push_line_blank]); but a blank first line is not dropped: it is
    emitted as an ordinary paragraph holding the line, and the blank
    lines after it become spacers. *)
Theorem leading_blank_line_emitted :
  parse_lines ([LF] ++ js "Hello") = [P_run [] 120; P_run (js "Hello") 120]
  /\ blocks ([LF] ++ js "Hello")
     = [ParagraphBlock []; ParagraphBlock (js "Hello")]
  /\ parse_lines (js "  " ++ [LF; LF] ++ js "Hello")
     = [P_run (js "  ") 120; P_spacer; P_run (js "Hello") 120].
Proof. repeat split. Qed.

(** C9, on the input the code gets wrong.  The empty text splits into
    one empty line, which is emitted as a paragraph with an empty run:
    the document of no page has one paragraph, and it is not the
    placeholder. *)
Theorem empty_document_paragraph :
  join PAGE_BREAK [] = []
  /\ generateWord [] = [P_run [] 120]
  /\ generateWord [] <> [placeholder]
  /\ blocks [] = [ParagraphBlock []].
Proof. repeat split. discriminate. Qed.

(** C10. Every line of the split text appends exactly one paragraph to
    [children], so there are as many paragraphs as lines, at least one;
    the test [children.length > 0] always holds and the placeholder
    branch is never taken. *)
Theorem one_paragraph_per_line (markdownText : jsstring) :
  (forall children line,
      exists p, push_line children line = children ++ [p]) /\
  length (parse_lines markdownText) = length (split LF markdownText) /\
  1 <= length (split LF markdownText) /\
  Nat.ltb 0 (length (parse_lines markdownText)) = true /\
  generateWord markdownText = parse_lines markdownText /\
  generateWord markdownText <> [].
Proof.
  assert (Hlen : length (parse_lines markdownText)
                 = length (split LF markdownText)).
  { unfold parse_lines. now rewrite fold_push_length. }
  assert (Hpos : 1 <= length (split LF markdownText)).
  { pose proof (split_nonempty LF markdownText).
    destruct (split LF markdownText); [contradiction|simpl; lia]. }
  assert (Hlt : Nat.ltb 0 (length (parse_lines markdownText)) = true).
  { apply Nat.ltb_lt. lia. }
  assert (Hgen : generateWord markdownText = parse_lines markdownText).
  { unfold generateWord. cbv zeta. now rewrite Hlt. }
  repeat split; auto.
  - intros children line. unfold push_line.
    repeat match goal with |- context [if ?b then _ else _] =>
      destruct b end; eexists; reflexivity.
  - rewrite Hgen. apply parse_lines_nonempty.
Qed.

(** ** The JSON parser does not depend on its fuel *)

Section LeafParsers.

Lemma skip_ws_length (s : jsstring) : length (skip_ws s) <= length s.
Proof.
  induction s as [|c s IH]; cbn [skip_ws]; [lia|].
  destruct (is_json_ws c); cbn [length]; lia.
Qed.

Lemma skip_ws_cons (s : jsstring) (c : N) (r : jsstring) :
  skip_ws s = c :: r -> length r < length s.
Proof.
  intros E. pose proof (skip_ws_length s) as H. rewrite E in H.
  cbn [length] in H. lia.
Qed.

Lemma parse_chars_length (n : nat) :
  forall s acc k r,
    length s <= n -> parse_chars s acc = Some (k, r) -> length r <= length s.
Proof.
  induction n as [|n IH]; intros s acc k r Hn E.
  - destruct s; [discriminate|cbn in Hn; lia].
  - destruct s as [|c s]; [discriminate|]. cbn [parse_chars] in E.
    cbn [length] in Hn |- *.
    destruct (N.eqb c 34); [injection E as _ <-; lia|].
    destruct (N.eqb c 92).
    + destruct s as [|e r1]; [discriminate|].
      destruct (N.eqb e 117).
      * destruct r1 as [|h1 [|h2 [|h3 [|h4 r2]]]]; try discriminate.
        destruct (hex4 h1 h2 h3 h4); [|discriminate].
        apply IH in E; cbn [length] in *; lia.
      * destruct (unescape e); [|discriminate].
        apply IH in E; cbn [length] in *; lia.
    + destruct (N.ltb c 32); [discriminate|].
      apply IH in E; lia.
Qed.

Lemma parse_digits_length (s : jsstring) :
  forall acc n v k r,
    parse_digits s acc n = (v, k, r) -> length r <= length s.
Proof.
  induction s as [|c s IH]; intros acc n v k r E; cbn [parse_digits] in E.
  - injection E as _ _ <-. lia.
  - destruct (is_digit c).
    + apply IH in E. cbn [length]. lia.
    + injection E as _ _ <-. lia.
Qed.

Lemma parse_exponent_length (s : jsstring) (e : Z) (r : jsstring) :
  parse_exponent s = Some (e, r) -> length r <= length s.
Proof.
  unfold parse_exponent. destruct s as [|c s]; [intros E; injection E as _ <-; lia|].
  destruct (N.eqb c 101 || N.eqb c 69).
  - set (sr := match s with
               | [] => (1%Z, s)
               | d :: r' =>
                   if N.eqb d 43 then (1%Z, r')
                   else if N.eqb d 45 then ((-1)%Z, r') else (1%Z, s)
               end).
    assert (Hsr : length (snd sr) <= length s).
    { subst sr. destruct s as [|d r']; [cbn; lia|].
      destruct (N.eqb d 43); [cbn; lia|].
      destruct (N.eqb d 45); cbn; lia. }
    destruct sr as [sign r1]. cbn [snd] in Hsr.
    destruct (parse_digits r1 0 0) as [[v k] r2] eqn:Ed.
    apply parse_digits_length in Ed.
    destruct k; [discriminate|]. intros E. injection E as _ <-.
    cbn [length]. lia.
  - intros E. injection E as _ <-. lia.
Qed.

Lemma parse_fraction_length (s : jsstring) (i m : N) (e : Z) (r : jsstring) :
  parse_fraction s i = Some (m, e, r) -> length r <= length s.
Proof.
  unfold parse_fraction. destruct s as [|c s]; [intros E; injection E as _ _ <-; lia|].
  destruct (N.eqb c 46).
  - destruct (parse_digits s i 0) as [[v k] r1] eqn:Ed.
    apply parse_digits_length in Ed.
    destruct k; [discriminate|]. intros E. injection E as _ _ <-.
    cbn [length]. lia.
  - intros E. injection E as _ _ <-. lia.
Qed.

Lemma parse_number_length (s : jsstring) (v : JsValue) (r : jsstring) :
  parse_number s = Some (v, r) -> length r <= length s.
Proof.
  unfold parse_number.
  set (ns := match s with
             | [] => (false, s)
             | c :: r0 => if N.eqb c 45 then (true, r0) else (false, s)
             end).
  assert (Hns : length (snd ns) <= length s).
  { subst ns. destruct s as [|c r0]; [cbn; lia|].
    destruct (N.eqb c 45); cbn; lia. }
  destruct ns as [neg s1]. cbn [snd] in Hns.
  set (int := match s1 with
              | [] => None
              | c :: r0 =>
                  if N.eqb c 48 then Some (0%N, r0)
                  else if is_digit c
                       then let '(v0, _, r1) := parse_digits s1 0 0 in
                            Some (v0, r1)
                       else None
              end).
  assert (Hint : forall i s2, int = Some (i, s2) -> length s2 <= length s1).
  { subst int. intros i s2. destruct s1 as [|c r0]; [discriminate|].
    destruct (N.eqb c 48); [intros E; injection E as _ <-; cbn; lia|].
    destruct (is_digit c); [|discriminate].
    destruct (parse_digits (c :: r0) 0 0) as [[v0 k] r1] eqn:Ed.
    apply parse_digits_length in Ed. intros E. injection E as _ <-.
    exact Ed. }
  destruct int as [[i s2]|]; [|discriminate].
  specialize (Hint i s2 eq_refl).
  destruct (parse_fraction s2 i) as [[[m fe] s3]|] eqn:Ef; [|discriminate].
  apply parse_fraction_length in Ef.
  destruct (parse_exponent s3) as [[e s4]|] eqn:Ee; [|discriminate].
  apply parse_exponent_length in Ee.
  intros E. injection E as _ <-. lia.
Qed.

End LeafParsers.

Section ContainerParsers.

Variable pv : jsstring -> option (JsValue * jsstring).
Hypothesis pv_length :
  forall t v r, pv t = Some (v, r) -> length r <= length t.

Lemma parse_elements_length (fuel : nat) :
  forall s acc vs r,
    parse_elements pv fuel s acc = Some (vs, r) -> length r <= length s.
Proof.
  induction fuel as [|f IH]; intros s acc vs r E; [discriminate|].
  cbn [parse_elements] in E.
  destruct (pv s) as [[v r1]|] eqn:Ev; [|discriminate].
  apply pv_length in Ev.
  destruct (skip_ws r1) as [|c r2] eqn:Ew; [discriminate|].
  apply skip_ws_cons in Ew.
  destruct (N.eqb c 44).
  - apply IH in E. lia.
  - destruct (N.eqb c 93); [|discriminate]. injection E as _ <-. lia.
Qed.

Lemma parse_members_length (fuel : nat) :
  forall s acc ps r,
    parse_members pv fuel s acc = Some (ps, r) -> length r <= length s.
Proof.
  induction fuel as [|f IH]; intros s acc ps r E; [discriminate|].
  cbn [parse_members] in E.
  destruct (skip_ws s) as [|c r0] eqn:Ew0; [discriminate|].
  apply skip_ws_cons in Ew0.
  destruct (N.eqb c 34); [|discriminate].
  destruct (parse_chars r0 []) as [[k r1]|] eqn:Ek; [|discriminate].
  apply (parse_chars_length (length r0)) in Ek; [|lia].
  destruct (skip_ws r1) as [|c1 r2] eqn:Ew1; [discriminate|].
  apply skip_ws_cons in Ew1.
  destruct (N.eqb c1 58); [|discriminate].
  destruct (pv r2) as [[v r3]|] eqn:Ev; [|discriminate].
  apply pv_length in Ev.
  destruct (skip_ws r3) as [|c3 r4] eqn:Ew3; [discriminate|].
  apply skip_ws_cons in Ew3.
  destruct (N.eqb c3 44).
  - apply IH in E. lia.
  - destruct (N.eqb c3 125); [|discriminate]. injection E as _ <-. lia.
Qed.

Variable pv' : jsstring -> option (JsValue * jsstring).

(** Two value parsers that agree on the strings that can arise, and any
    two amounts of fuel above the length of the input, give the same
    elements. *)
Lemma parse_elements_agree (fuel : nat) :
  forall fuel' s acc,
    (forall t, length t <= length s -> pv t = pv' t) ->
    length s < fuel -> length s < fuel' ->
    parse_elements pv fuel s acc = parse_elements pv' fuel' s acc.
Proof.
  induction fuel as [|f IH]; intros fuel' s acc Hag Hf Hf'; [lia|].
  destruct fuel' as [|f']; [lia|]. cbn [parse_elements].
  rewrite <- (Hag s) by lia.
  destruct (pv s) as [[v r1]|] eqn:Ev; [|reflexivity].
  apply pv_length in Ev.
  destruct (skip_ws r1) as [|c r2] eqn:Ew; [reflexivity|].
  apply skip_ws_cons in Ew.
  destruct (N.eqb c 44); [|reflexivity].
  apply IH; [|lia|lia]. intros t Ht. apply Hag. lia.
Qed.

Lemma parse_members_agree (fuel : nat) :
  forall fuel' s acc,
    (forall t, length t <= length s -> pv t = pv' t) ->
    length s < fuel -> length s < fuel' ->
    parse_members pv fuel s acc = parse_members pv' fuel' s acc.
Proof.
  induction fuel as [|f IH]; intros fuel' s acc Hag Hf Hf'; [lia|].
  destruct fuel' as [|f']; [lia|]. cbn [parse_members].
  destruct (skip_ws s) as [|c r0] eqn:Ew0; [reflexivity|].
  apply skip_ws_cons in Ew0.
  destruct (N.eqb c 34); [|reflexivity].
  destruct (parse_chars r0 []) as [[k r1]|] eqn:Ek; [|reflexivity].
  apply (parse_chars_length (length r0)) in Ek; [|lia].
  destruct (skip_ws r1) as [|c1 r2] eqn:Ew1; [reflexivity|].
  apply skip_ws_cons in Ew1.
  destruct (N.eqb c1 58); [|reflexivity].
  rewrite <- (Hag r2) by lia.
  destruct (pv r2) as [[v r3]|] eqn:Ev; [|reflexivity].
  apply pv_length in Ev.
  destruct (skip_ws r3) as [|c3 r4] eqn:Ew3; [reflexivity|].
  apply skip_ws_cons in Ew3.
  destruct (N.eqb c3 44); [|reflexivity].
  apply IH; [|lia|lia]. intros t Ht. apply Hag. lia.
Qed.

End ContainerParsers.

Lemma parse_value_length (fuel : nat) :
  forall s v r, parse_value fuel s = Some (v, r) -> length r <= length s.
Proof.
  induction fuel as [|f IH]; intros s v r E; [discriminate|].
  cbn [parse_value] in E.
  destruct (skip_ws s) as [|c r0] eqn:Ew; [discriminate|].
  pose proof (skip_ws_length s) as Hs. rewrite Ew in Hs.
  cbn [length] in Hs.
  destruct (N.eqb c 123).
  { destruct (skip_ws r0) as [|c' r'] eqn:Ew'; [discriminate|].
    apply skip_ws_cons in Ew'.
    destruct (N.eqb c' 125); [injection E as _ <-; lia|].
    destruct (parse_members (parse_value f) f r0 []) as [[ps r1]|] eqn:Em;
      [|discriminate].
    apply (parse_members_length (parse_value f) IH) in Em.
    injection E as _ <-. lia. }
  destruct (N.eqb c 91).
  { destruct (skip_ws r0) as [|c' r'] eqn:Ew'; [discriminate|].
    apply skip_ws_cons in Ew'.
    destruct (N.eqb c' 93); [injection E as _ <-; lia|].
    destruct (parse_elements (parse_value f) f r0 []) as [[vs r1]|] eqn:Em;
      [|discriminate].
    apply (parse_elements_length (parse_value f) IH) in Em.
    injection E as _ <-. lia. }
  destruct (N.eqb c 34).
  { destruct (parse_chars r0 []) as [[str r1]|] eqn:Ek; [|discriminate].
    apply (parse_chars_length (length r0)) in Ek; [|lia].
    injection E as _ <-. lia. }
  destruct (startsWith (c :: r0) (js "true")).
  { injection E as _ <-.
    destruct r0 as [|? [|? [|? ?]]]; cbn [length] in *; lia. }
  destruct (startsWith (c :: r0) (js "false")).
  { injection E as _ <-.
    destruct r0 as [|? [|? [|? [|? ?]]]]; cbn [length] in *; lia. }
  destruct (startsWith (c :: r0) (js "null")).
  { injection E as _ <-.
    destruct r0 as [|? [|? [|? ?]]]; cbn [length] in *; lia. }
  apply parse_number_length in E. cbn [length] in E. lia.
Qed.

Lemma parse_value_S (f : nat) (s : jsstring) :
  parse_value (S f) s =
  match skip_ws s with
  | [] => None
  | c :: r =>
      if N.eqb c 123 then
        match skip_ws r with
        | c' :: r' =>
            if N.eqb c' 125 then Some (JObject [], r')
            else match parse_members (parse_value f) f r [] with
                 | Some (ps, r1) => Some (JObject ps, r1)
                 | None => None
                 end
        | [] => None
        end
      else if N.eqb c 91 then
        match skip_ws r with
        | c' :: r' =>
            if N.eqb c' 93 then Some (JArray [], r')
            else match parse_elements (parse_value f) f r [] with
                 | Some (vs, r1) => Some (JArray vs, r1)
                 | None => None
                 end
        | [] => None
        end
      else if N.eqb c 34 then
        match parse_chars r [] with
        | Some (str, r1) => Some (JString str, r1)
        | None => None
        end
      else if startsWith (c :: r) (js "true") then
        Some (JBool true, skipn 4 (c :: r))
      else if startsWith (c :: r) (js "false") then
        Some (JBool false, skipn 5 (c :: r))
      else if startsWith (c :: r) (js "null") then
        Some (JNull, skipn 4 (c :: r))
      else parse_number (c :: r)
  end.
Proof. reflexivity. Qed.

(** One more unit of fuel than the input is long changes nothing. *)
Lemma parse_value_stable (fuel : nat) :
  forall s, length s < fuel -> parse_value (S fuel) s = parse_value fuel s.
Proof.
  induction fuel as [|f IH]; intros s Hs; [lia|].
  rewrite (parse_value_S (S f) s), (parse_value_S f s).
  destruct (skip_ws s) as [|c r0] eqn:Ew; [reflexivity|].
  apply skip_ws_cons in Ew.
  destruct (N.eqb c 123).
  { destruct (skip_ws r0) as [|c' r'] eqn:Ew'; [reflexivity|].
    destruct (N.eqb c' 125); [reflexivity|].
    rewrite (parse_members_agree (parse_value (S f))
               (parse_value_length (S f)) (parse_value f) (S f) f r0 []);
      [reflexivity| |lia|lia].
    intros t Ht. apply IH. lia. }
  destruct (N.eqb c 91).
  { destruct (skip_ws r0) as [|c' r'] eqn:Ew'; [reflexivity|].
    destruct (N.eqb c' 93); [reflexivity|].
    rewrite (parse_elements_agree (parse_value (S f))
               (parse_value_length (S f)) (parse_value f) (S f) f r0 []);
      [reflexivity| |lia|lia].
    intros t Ht. apply IH. lia. }
  reflexivity.
Qed.

(** [JSON_parse] gives the parser its least sufficient fuel; more fuel
    parses the same value, so a [None] is a syntax error and never a
    shortage of fuel. *)
Lemma parse_value_fuel (text : jsstring) (fuel : nat) :
  length text < fuel ->
  parse_value fuel text = parse_value (S (length text)) text.
Proof.
  intros H. induction fuel as [|f IH]; [lia|].
  destruct (Nat.eq_dec f (length text)) as [->|Hne]; [reflexivity|].
  rewrite parse_value_stable by lia. apply IH. lia.
Qed.

(** ** Table assembly *)

Section TableFacts.

Lemma allTables_flat (results : list jsstring) :
  allTables results = flat_map page_tables results.
Proof. reflexivity. Qed.

Lemma allTables_one (res : jsstring) : allTables [res] = page_tables res.
Proof. rewrite allTables_flat. simpl. apply app_nil_r. Qed.

Lemma allTables_app (before after : list jsstring) :
  allTables (before ++ after) = allTables before ++ allTables after.
Proof. rewrite !allTables_flat. apply flat_map_app. Qed.

Lemma page_tables_validated (res : jsstring) :
  validated res = true ->
  page_tables res
  = match JSON_parse res with
    | Some v => match matches_shape v with Some ts => ts | None => [] end
    | None => []
    end.
Proof.
  unfold validated, page_tables.
  destruct (JSON_parse res) as [v|] eqn:Ep.
  - destruct (matches_shape v) as [ts|] eqn:Es.
    + intros _. unfold tables_of. rewrite Ep.
      destruct v; try discriminate.
      unfold matches_shape in Es. unfold get_tables.
      destruct (lookup (js "tables") props) as [| | | | |els|];
        try discriminate.
      destruct (forallb is_table els); [|discriminate].
      now injection Es as <-.
    + destruct (tables_of res) as [| | | | |[|x l]|]; try discriminate.
      reflexivity.
  - intros _. unfold tables_of. now rewrite Ep.
Qed.

End TableFacts.

(** C3, as the code has it.  The merged array is the concatenation, in
    page order, of what each page result adds, so a page that adds
    nothing leaves the others as they are.  A result that does not
    parse, one that parses to [null], and one whose [tables] is missing
    or falsy add nothing.  A result whose [tables] is an array adds the
    elements of that array, in order and unchecked; one whose [tables]
    is any other truthy value adds that value as a single element.  On
    page results that each either fail to parse, have the shape
    [{ tables: Table[] }] or add nothing, the merged array is the
    flattening of the parsed table lists; and the example of the
    specification yields its one table. *)
Theorem table_assembly :
  (forall before after,
      allTables (before ++ after) = allTables before ++ allTables after) /\
  (forall res, JSON_parse res = None -> allTables [res] = []) /\
  (forall res v,
      JSON_parse res = Some v -> get_tables v = None -> allTables [res] = []) /\
  (forall res v t,
      JSON_parse res = Some v -> get_tables v = Some t ->
      to_boolean t = false -> allTables [res] = []) /\
  (forall res v ts,
      JSON_parse res = Some v -> get_tables v = Some (JArray ts) ->
      allTables [res] = ts) /\
  (forall res v t,
      JSON_parse res = Some v -> get_tables v = Some t ->
      to_boolean t = true -> is_array t = false -> allTables [res] = [t]) /\
  (forall results,
      forallb validated results = true ->
      allTables results = assembleTables_spec results) /\
  allTables [ jsq "{'tables':[{'headers':['a'],'rows':[['1']]}]}";
              js "not json";
              jsq "{'tables':[]}" ]
  = [ table [js "a"] [[js "1"]] ].
Proof.
  split; [exact allTables_app|].
  split; [|split; [|split; [|split; [|split; [|split]]]]].
  - intros res E. rewrite allTables_one. unfold page_tables, tables_of.
    now rewrite E.
  - intros res v E Eg. rewrite allTables_one. unfold page_tables, tables_of.
    now rewrite E, Eg.
  - intros res v t E Eg Et. rewrite allTables_one.
    unfold page_tables, tables_of. now rewrite E, Eg, Et.
  - intros res v ts E Eg. rewrite allTables_one.
    unfold page_tables, tables_of. now rewrite E, Eg.
  - intros res v t E Eg Et Ea. rewrite allTables_one.
    unfold page_tables, tables_of. rewrite E, Eg, Et.
    destruct t; try reflexivity; discriminate.
  - intros results. rewrite allTables_flat. unfold assembleTables_spec.
    induction results as [|res results IH]; [reflexivity|].
    cbn [forallb flat_map]. intros H. apply andb_prop in H.
    destruct H as [Hv Hrest].
    now rewrite IH, page_tables_validated.
  - vm_compute. reflexivity.
Qed.

Lemma table_assembly_witness :
  allTables [js "not json"] = []
  /\ allTables [jsq "{'tables':[1,2]}"]
     = [JNumber false 1 0; JNumber false 2 0]
  /\ allTables [jsq "{'tables':'x'}"] = [JString (js "x")]
  /\ allTables [jsq "null"; jsq "{'tables':0}"; jsq "{'tables':[]}"]
     = assembleTables_spec
         [jsq "null"; jsq "{'tables':0}"; jsq "{'tables':[]}"].
Proof.
  destruct table_assembly as (_ & Hnone & _ & _ & Harr & Hone & Hspec & _).
  split; [apply Hnone; vm_compute; reflexivity|].
  split; [eapply Harr; vm_compute; reflexivity|].
  split; [eapply Hone; vm_compute; reflexivity|].
  apply Hspec. vm_compute. reflexivity.
Defined.

(** C3 as stated fails: a page result whose [tables] is one table
    object, not an array of tables, does not have the shape
    [{ tables: Table[] }], and still adds an element. *)
Lemma table_assembly_counterexample : ~ table_assembly_as_specified.
Proof.
  intros H.
  specialize (H [jsq "{'tables':{'headers':['a'],'rows':[['1']]}}"]).
  vm_compute in H. discriminate H.
Qed.

(** ** The pipeline *)

Section TraceFacts.

Lemma inference_calls_app (a b : list Event) :
  inference_calls (a ++ b) = inference_calls a ++ inference_calls b.
Proof. apply flat_map_app. Qed.

Lemma reported_progress_app (a b : list Event) :
  reported_progress (a ++ b) = reported_progress a ++ reported_progress b.
Proof. apply flat_map_app. Qed.

Lemma settle_app (a b : list Event) :
  forall pending,
    settle pending (a ++ b)
    = match settle pending a with
      | Some q => settle q b
      | None => None
      end.
Proof.
  induction a as [|ev a IH]; intros pending; [reflexivity|].
  destruct ev; cbn [settle app]; try apply IH.
  - destruct pending; [reflexivity|apply IH].
  - destruct pending as [j|]; [|reflexivity].
    destruct (Nat.eqb i j); [apply IH|reflexivity].
Qed.

Variable env : Env.
Variable target : ConversionTarget.
Variable n : nat.
Variable ip : bool.
Variable er : option jsstring.

Lemma loop_events_app (a b : list DocumentPage) :
  forall i,
    loop_events env target n ip er i (a ++ b)
    = loop_events env target n ip er i a
      ++ loop_events env target n ip er (i + length a) b.
Proof.
  induction a as [|p a IH]; intros i; cbn [loop_events app length].
  - now rewrite Nat.add_0_r.
  - rewrite IH, <- app_assoc.
    now replace (S i + length a) with (i + S (length a)) by lia.
Qed.

Lemma loop_calls (rest : list DocumentPage) :
  forall i,
    inference_calls (loop_events env target n ip er i rest)
    = calls_from target i rest.
Proof.
  induction rest as [|p rest IH]; intros i; [reflexivity|].
  cbn [loop_events calls_from]. rewrite inference_calls_app, IH.
  reflexivity.
Qed.

Lemma loop_progress (rest : list DocumentPage) :
  forall i,
    reported_progress (loop_events env target n ip er i rest)
    = map (fun k => page_progress k n) (seq i (length rest)).
Proof.
  induction rest as [|p rest IH]; intros i; [reflexivity|].
  cbn [loop_events length seq map]. rewrite reported_progress_app, IH.
  reflexivity.
Qed.

Lemma loop_sequential (rest : list DocumentPage) :
  forall i, settle None (loop_events env target n ip er i rest) = Some None.
Proof.
  induction rest as [|p rest IH]; intros i; [reflexivity|].
  cbn [loop_events]. rewrite settle_app.
  cbn [page_events settle]. rewrite Nat.eqb_refl. apply IH.
Qed.

Lemma loop_quiet (rest : list DocumentPage) :
  forall i,
    forallb (fun ev => negb (is_result ev) && negb (is_emission ev))
            (loop_events env target n ip er i rest) = true.
Proof.
  induction rest as [|p rest IH]; intros i; [reflexivity|].
  cbn [loop_events]. rewrite forallb_app, IH. reflexivity.
Qed.

Lemma calls_from_length (rest : list DocumentPage) :
  forall i, length (calls_from target i rest) = length rest.
Proof.
  induction rest as [|p rest IH]; intros i; cbn; [reflexivity|].
  now rewrite IH.
Qed.

Lemma calls_from_index (rest : list DocumentPage) :
  forall i j url t,
    In (j, url, t) (calls_from target i rest) ->
    i <= j < i + length rest
    /\ exists p, nth_error rest (j - i) = Some p /\ url = dataUrl p.
Proof.
  induction rest as [|p rest IH]; intros i j url t H; [destruct H|].
  cbn [calls_from In length] in *. destruct H as [H|H].
  - injection H as <- <- <-. split; [lia|].
    exists p. now rewrite Nat.sub_diag.
  - destruct (IH _ _ _ _ H) as (Hr & q & Hq & Hu). split; [lia|].
    exists q. split; [|assumption].
    replace (j - i) with (S (j - S i)) by lia. exact Hq.
Qed.

Lemma outcomes_length (rest : list DocumentPage) :
  forall i, length (outcomes env target i rest) = length rest.
Proof.
  induction rest as [|p rest IH]; intros i; cbn; [reflexivity|].
  now rewrite IH.
Qed.

Lemma outcomes_nth (rest : list DocumentPage) :
  forall i responses k p,
    outcomes env target i rest = map inr responses ->
    nth_error rest k = Some p ->
    infer env (i + k) (dataUrl p) target = inr (nth k responses []).
Proof.
  induction rest as [|q rest IH]; intros i responses k p H Hk.
  - destruct k; discriminate.
  - destruct responses as [|r responses]; [discriminate|].
    cbn [outcomes map] in H. injection H as Hr Hrest.
    destruct k as [|k]; cbn in Hk.
    + injection Hk as <-. now rewrite Nat.add_0_r.
    + replace (i + S k) with (S i + k) by lia.
      exact (IH _ _ _ _ Hrest Hk).
Qed.

End TraceFacts.

Section PipelineFacts.

Variable env : Env.
Variable target : ConversionTarget.
Variable n : nat.

Lemma for_pages_step_ok page rest i acc st r :
  infer env i (dataUrl page) target = inr r ->
  for_pages env target n i (page :: rest) acc st
  = for_pages env target n (S i) rest (acc ++ [r])
      (after_page env target n st i page).
Proof.
  intros H. unfold after_page, page_events. cbn [for_pages].
  unfold bind, setStatus, processPageWithGemini, bind, log, ret.
  cbn [status conversionResult trace]. rewrite H.
  rewrite <- !app_assoc. reflexivity.
Qed.

Lemma for_pages_step_fail page rest i acc st e :
  infer env i (dataUrl page) target = inl e ->
  for_pages env target n i (page :: rest) acc st
  = (inl e, after_page env target n st i page).
Proof.
  intros H. unfold after_page, page_events. cbn [for_pages].
  unfold bind, setStatus, processPageWithGemini, bind, log, throw.
  cbn [status conversionResult trace]. rewrite H.
  rewrite <- !app_assoc. reflexivity.
Qed.

(** A loop none of whose calls fails returns the results in page order,
    and leaves the events of its iterations. *)
Lemma for_pages_ok (rest : list DocumentPage) :
  forall i acc st responses,
    outcomes env target i rest = map inr responses ->
    exists s',
      for_pages env target n i rest acc st
      = (inr (acc ++ responses),
         {| status := s';
            conversionResult := conversionResult st;
            trace := trace st
                     ++ loop_events env target n (isProcessing (status st))
                          (error (status st)) i rest |}).
Proof.
  induction rest as [|page rest IH]; intros i acc st responses H.
  - destruct responses; [|discriminate]. exists (status st).
    cbn. rewrite !app_nil_r. now destruct st.
  - destruct responses as [|r responses]; [discriminate|].
    cbn [outcomes map] in H. injection H as Hr Hrest.
    rewrite (for_pages_step_ok _ _ _ _ _ _ Hr).
    destruct (IH (S i) (acc ++ [r]) (after_page env target n st i page) _
                Hrest)
      as (s' & E).
    exists s'. rewrite E. unfold after_page. cbn.
    now rewrite <- !app_assoc.
Qed.

(** A loop stops at the first call that fails. *)
Lemma for_pages_fail (before : list DocumentPage) :
  forall i acc st responses page after err,
    outcomes env target i before = map inr responses ->
    infer env (i + length before) (dataUrl page) target = inl err ->
    exists s',
      for_pages env target n i (before ++ page :: after) acc st
      = (inl err,
         {| status := s';
            conversionResult := conversionResult st;
            trace := trace st
                     ++ loop_events env target n (isProcessing (status st))
                          (error (status st)) i (before ++ [page]) |}).
Proof.
  induction before as [|p before IH];
    intros i acc st responses page after err H Herr.
  - cbn [length] in Herr. rewrite Nat.add_0_r in Herr.
    cbn [app]. rewrite (for_pages_step_fail _ _ _ _ _ _ Herr).
    eexists. unfold after_page. cbn [loop_events].
    now rewrite app_nil_r.
  - destruct responses as [|r responses]; [discriminate|].
    cbn [outcomes map] in H. injection H as Hr Hrest.
    cbn [app]. rewrite (for_pages_step_ok _ _ _ _ _ _ Hr).
    cbn [length] in Herr.
    replace (i + S (length before)) with (S i + length before) in Herr
      by lia.
    destruct (IH (S i) (acc ++ [r]) (after_page env target n st i p) _ page
                after err Hrest Herr) as (s' & E).
    exists s'. rewrite E. unfold after_page. cbn.
    now rewrite <- !app_assoc.
Qed.

End PipelineFacts.

Section RunFacts.

Variable env : Env.
Variable f : File.
Variable target : ConversionTarget.

(** A run all of whose inference calls succeed. *)
Lemma startConversion_inferred pages st responses :
  pages <> [] ->
  outcomes env target 0 pages = map inr responses ->
  startConversion env (Some f) pages target st
  = (inr tt,
     {| status := match emitter_outcome env target f
                          (assemble target responses) with
                  | None => complete_status
                  | Some e => error_status e
                  end;
        conversionResult := Some (assemble target responses);
        trace := trace st
                 ++ [EvSetStatus (init_status target)]
                 ++ loop_events env target (length pages) true None 0 pages
                 ++ closing_events env target f (assemble target responses) |}).
Proof.
  intros Hne Hok. unfold startConversion, closing_events.
  destruct (Nat.eqb (length pages) 0) eqn:El.
  { apply Nat.eqb_eq in El. destruct pages; [contradiction|discriminate]. }
  unfold try_catch. unfold bind at 1. unfold setStatus at 1.
  unfold bind at 1.
  match goal with |- context [for_pages _ _ _ _ _ _ ?s] =>
    destruct (for_pages_ok env target (length pages) pages 0 [] s
                responses Hok) as (s' & E)
  end.
  rewrite E. clear E.
  unfold emitter_outcome, emission, init_status.
  unfold bind, setStatus, setConversionResult, triggerDownload,
    generateExcel, generateWordFile, log, bind, ret, throw.
  cbn [app status isProcessing error conversionResult trace].
  destruct target.
  - destruct (word env _ _);
      cbn [app status isProcessing error conversionResult trace];
      rewrite <- !app_assoc; reflexivity.
  - destruct (excel env _ _);
      cbn [app status isProcessing error conversionResult trace];
      rewrite <- !app_assoc; reflexivity.
Qed.

(** A run one of whose inference calls fails. *)
Lemma startConversion_aborted before page after st responses err :
  outcomes env target 0 before = map inr responses ->
  infer env (length before) (dataUrl page) target = inl err ->
  startConversion env (Some f) (before ++ page :: after) target st
  = (inr tt,
     {| status := error_status err;
        conversionResult := conversionResult st;
        trace := trace st
                 ++ [EvSetStatus (init_status target)]
                 ++ loop_events env target
                      (length (before ++ page :: after)) true None 0
                      (before ++ [page])
                 ++ [EvConsoleError err; EvSetStatus (error_status err)] |}).
Proof.
  intros Hok Herr. unfold startConversion.
  destruct (Nat.eqb (length (before ++ page :: after)) 0) eqn:El.
  { apply Nat.eqb_eq in El. rewrite length_app in El. cbn in El. lia. }
  unfold try_catch. unfold bind at 1. unfold setStatus at 1.
  unfold bind at 1.
  match goal with |- context [for_pages _ _ ?n _ _ _ ?s] =>
    destruct (for_pages_fail env target n before 0 [] s responses page
                after err Hok Herr) as (s' & E)
  end.
  rewrite E. clear E.
  unfold init_status, error_status.
  unfold bind, setStatus, log.
  cbn [app status isProcessing error conversionResult trace].
  rewrite <- !app_assoc. reflexivity.
Qed.

Lemma startConversion_no_pages file st :
  startConversion env file [] target st = (inr tt, st).
Proof. destruct file; reflexivity. Qed.

End RunFacts.

Lemma loop_events_nth env target n ip er (rest : list DocumentPage) :
  forall i k p,
    nth_error rest k = Some p ->
    exists pre post,
      loop_events env target n ip er i rest
      = pre ++ page_events env target n ip er (i + k) p ++ post.
Proof.
  induction rest as [|q rest IH]; intros i k p Hk.
  - destruct k; discriminate.
  - destruct k as [|k]; cbn in Hk.
    + injection Hk as <-. exists [], (loop_events env target n ip er (S i) rest).
      now rewrite Nat.add_0_r.
    + destruct (IH (S i) k p Hk) as (pre & post & E).
      exists (page_events env target n ip er i q ++ pre), post.
      cbn [loop_events]. rewrite E, <- app_assoc.
      now replace (i + S k) with (S i + k) by lia.
Qed.

(** The page source never hands the pipeline more than the cap. *)
Lemma extractPagesAsImages_cap
  (numPages : nat) (canvas : nat -> option jsstring) :
  length (extractPagesAsImages numPages canvas) <= MAX_PAGES.
Proof.
  unfold extractPagesAsImages. cbv zeta.
  assert (H : forall l : list nat,
             length (flat_map
                       (fun i => match canvas i with
                                 | Some url => [ {| index := i; dataUrl := url |} ]
                                 | None => []
                                 end) l) <= length l).
  { induction l as [|i l IH]; cbn [flat_map length]; [lia|].
    rewrite length_app. destruct (canvas i); cbn [length]; lia. }
  specialize (H (seq 1 (Nat.min numPages MAX_PAGES))).
  rewrite length_seq in H. lia.
Qed.

(** Within the page cap of the page source the integer part is the
    exact quotient. *)
Lemma percent_within_cap (n : nat) :
  1 <= n <= MAX_PAGES ->
  forall i, i < n -> percent i n = (85 * Z.of_nat i / Z.of_nat n)%Z.
Proof.
  unfold MAX_PAGES. intros H.
  destruct n as [|n]; [lia|].
  do 10 (destruct n as [|n];
         [intros i Hi;
          do 10 (try lia; (destruct i as [|i]; [vm_compute; reflexivity|]));
          lia|]).
  lia.
Qed.

(** Beyond it the two can differ by one: binary64 rounds 49/85 below the
    fraction. *)
Example percent_rounding :
  percent 49 85 = 48%Z /\ (85 * 49 / 85 = 49)%Z
  /\ page_progress 49 85 = num 53.
Proof. repeat split; vm_compute; reflexivity. Qed.

(** ** The claims on the pipeline *)

(** C1, as the code has it.  When the calls for the pages [before]
    succeed and the call for [page] throws [err], the run makes the
    calls for [before] and for [page] and no other, so none for a page
    after it; it sets no conversion result and calls no emitter; it does
    not throw, and it ends in the error status, whose message is the
    message of [err] when that is not empty and the fixed text
    [Something went wrong during conversion.] when it is empty. *)
Theorem fail_fast_abort
  (env : Env) (f : File) (before : list DocumentPage) (page : DocumentPage)
  (after : list DocumentPage) (target : ConversionTarget) (st : Store)
  (responses : list jsstring) (err : JsError)
  (Hok : outcomes env target 0 before = map inr responses)
  (Herr : infer env (length before) (dataUrl page) target = inl err) :
  exists events,
    startConversion env (Some f) (before ++ page :: after) target st
    = (inr tt,
       {| status := error_status err;
          conversionResult := conversionResult st;
          trace := trace st ++ events |})
    /\ inference_calls events = calls_from target 0 (before ++ [page])
    /\ (forall j url t,
           In (j, url, t) (inference_calls events) -> j <= length before)
    /\ forallb (fun ev => negb (is_result ev) && negb (is_emission ev))
               events = true
    /\ isProcessing (error_status err) = false
    /\ (message err <> [] ->
        error (error_status err) = Some (message err))
    /\ (message err = [] ->
        error (error_status err) = Some default_error).
Proof.
  exists ([EvSetStatus (init_status target)]
          ++ loop_events env target (length (before ++ page :: after)) true
               None 0 (before ++ [page])
          ++ [EvConsoleError err; EvSetStatus (error_status err)]).
  split; [|split; [|split; [|split; [|split; [|split]]]]].
  - apply (startConversion_aborted env f target before page after st
             responses err Hok Herr).
  - rewrite !inference_calls_app, loop_calls. cbn [inference_calls flat_map app].
    apply app_nil_r.
  - intros j url t Hin.
    rewrite !inference_calls_app, loop_calls in Hin.
    cbn [inference_calls flat_map app] in Hin. rewrite app_nil_r in Hin.
    apply calls_from_index in Hin. destruct Hin as (Hj & _).
    rewrite length_app in Hj. cbn in Hj. lia.
  - rewrite !forallb_app, loop_quiet. reflexivity.
  - reflexivity.
  - intros Hm. unfold error_status, or_else. cbn [error].
    destruct (message err); [contradiction|reflexivity].
  - intros Hm. unfold error_status, or_else. cbn [error].
    now rewrite Hm.
Qed.

Lemma fail_fast_abort_witness :
  exists events,
    startConversion (env_failing 1 {| message := js "quota exceeded" |})
      (Some sample_file) three_pages WORD idle
    = (inr tt,
       {| status := error_status {| message := js "quota exceeded" |};
          conversionResult := None;
          trace := events |})
    /\ length (inference_calls events) = 2.
Proof.
  destruct (fail_fast_abort
              (env_failing 1 {| message := js "quota exceeded" |})
              sample_file (firstn 1 three_pages)
              {| index := 2; dataUrl := js "data:image/png;base64,BBBB" |}
              (skipn 2 three_pages) WORD idle [js "page 1"]
              {| message := js "quota exceeded" |}
              eq_refl eq_refl)
    as (events & Hrun & Hcalls & _).
  exists events. split; [exact Hrun|].
  rewrite Hcalls. reflexivity.
Defined.

(** C1 as stated fails on the message: an error whose message is empty
    is shown as the fixed text, not as its own message. *)
Lemma fail_fast_message_counterexample : ~ fail_fast_message_as_specified.
Proof.
  intros H.
  specialize (H (env_failing 0 {| message := [] |}) sample_file []
                {| index := 1; dataUrl := js "data:image/png;base64,AAAA" |}
                [] WORD idle {| message := [] |}).
  cbn [nth_error length] in H.
  assert (Hnone : forall (k : nat) (p : DocumentPage),
             @nth_error DocumentPage [] k = Some p ->
             exists r,
               infer (env_failing 0 {| message := [] |}) k (dataUrl p) WORD
               = inr r)
    by (intros [|k] p Hk; discriminate).
  specialize (H Hnone eq_refl). vm_compute in H. discriminate H.
Qed.

(** C2. When every inference call succeeds, the run calls the inference
    client once per page, in page order, each call settled before the
    next begins; the results it accumulates are the answers in page
    order, and, when there is a page, the conversion result it sets is
    assembled from them. *)
Theorem sequential_inference
  (env : Env) (f : File) (pages : list DocumentPage)
  (target : ConversionTarget) (st : Store) (responses : list jsstring)
  (Hok : outcomes env target 0 pages = map inr responses) :
  exists events st',
    startConversion env (Some f) pages target st = (inr tt, st')
    /\ trace st' = trace st ++ events
    /\ inference_calls events = calls_from target 0 pages
    /\ length (inference_calls events) = length pages
    /\ (forall k p, nth_error pages k = Some p ->
                    nth_error (inference_calls events) k
                    = Some (k, dataUrl p, target)
                    /\ infer env k (dataUrl p) target
                       = inr (nth k responses []))
    /\ sequential events
    /\ length responses = length pages
    /\ (pages <> [] ->
        In (EvSetConversionResult (assemble target responses)) events
        /\ conversionResult st' = Some (assemble target responses)).
Proof.
  destruct pages as [|page0 rest] eqn:Epages.
  { exists [], st. rewrite startConversion_no_pages.
    destruct responses; [|discriminate].
    repeat split; try reflexivity.
    - now rewrite app_nil_r.
    - destruct k; discriminate.
    - destruct k; discriminate.
    - contradiction.
    - contradiction. }
  rewrite <- Epages in *.
  assert (Hpages : pages <> []) by (rewrite Epages; discriminate).
  clear Epages.
  eexists. eexists.
  split; [apply (startConversion_inferred env f target pages st responses
                   Hpages Hok)|].
  cbn [trace conversionResult].
  assert (Hcalls :
            inference_calls
              ([EvSetStatus (init_status target)]
               ++ loop_events env target (length pages) true None 0 pages
               ++ closing_events env target f (assemble target responses))
            = calls_from target 0 pages).
  { rewrite !inference_calls_app, loop_calls. unfold closing_events.
    destruct target;
      (destruct (emitter_outcome env _ f _); cbn; apply app_nil_r). }
  split; [reflexivity|].
  split; [exact Hcalls|].
  split; [rewrite Hcalls; apply calls_from_length|].
  split.
  { intros k p Hk. split.
    - rewrite Hcalls. clear Hcalls Hok Hpages.
      assert (G : forall rest i k,
                 nth_error rest k = Some p ->
                 nth_error (calls_from target i rest) k
                 = Some (i + k, dataUrl p, target)).
      { induction rest0 as [|q rest0 IH]; intros i [|j] Hj;
          try discriminate; cbn in Hj |- *.
        - injection Hj as <-. now rewrite Nat.add_0_r.
        - rewrite (IH (S i) j Hj).
          now replace (S i + j) with (i + S j) by lia. }
      exact (G pages 0 k Hk).
    - exact (outcomes_nth env target pages 0 responses k p Hok Hk). }
  split.
  { unfold sequential. rewrite settle_app. cbn [settle].
    rewrite settle_app, loop_sequential. unfold closing_events.
    destruct target; (destruct (emitter_outcome env _ f _); reflexivity). }
  split.
  { apply (f_equal (@length _)) in Hok.
    now rewrite outcomes_length, length_map in Hok. }
  intros _. split; [|reflexivity].
  apply in_or_app. right. apply in_or_app. right.
  unfold closing_events. right. left. reflexivity.
Qed.

Lemma sequential_inference_witness :
  exists events st',
    startConversion env_ok (Some sample_file) three_pages WORD idle
    = (inr tt, st')
    /\ trace st' = events
    /\ length (inference_calls events) = 3
    /\ conversionResult st'
       = Some (Markdown (join PAGE_BREAK
                           [js "page 1"; js "page 2"; js "page 3"])).
Proof.
  assert (Hne : three_pages <> []) by discriminate.
  destruct (sequential_inference env_ok sample_file three_pages WORD idle
              [js "page 1"; js "page 2"; js "page 3"] eq_refl)
    as (events & st' & Hrun & Htrace & _ & Hlen & _ & _ & _ & Hres).
  exists events, st'. repeat split; try assumption.
  exact (proj2 (Hres Hne)).
Defined.

(** C7. On a successful run over [n] pages the progress values reported
    are 5, then for each page [i] from 0 the value
    [5 + Math.floor((i / n) * 85)], set immediately before the call for
    that page, then 95 and 100.  The arithmetic is binary64, as in the
    code: the value for page [i] is 5 plus the integer part, between 0
    and 84, of the rounded product, which is [floor(85 i / n)] exactly
    for the page counts the page source produces.  The whole sequence is
    non-decreasing and ends at 100.  [n] is any length an array can
    have. *)
Theorem progress_reporting
  (env : Env) (f : File) (pages : list DocumentPage)
  (target : ConversionTarget) (st : Store) (responses : list jsstring)
  (Hpages : pages <> [])
  (Hlen : (Z.of_nat (length pages) <= MAX_ARRAY_LENGTH)%Z)
  (Hok : outcomes env target 0 pages = map inr responses)
  (Hemit : emitter_outcome env target f (assemble target responses) = None) :
  let n := length pages in
  exists events,
    startConversion env (Some f) pages target st
    = (inr tt,
       {| status := complete_status;
          conversionResult := Some (assemble target responses);
          trace := trace st ++ events |})
    /\ events
       = [EvSetStatus (init_status target)]
         ++ loop_events env target n true None 0 pages
         ++ [EvSetStatus finalizing_status;
             EvSetConversionResult (assemble target responses);
             emission env target f (assemble target responses);
             EvSetStatus complete_status]
    /\ reported_progress events
       = num 5 :: map (fun i => page_progress i n) (seq 0 n)
               ++ [num 95; num 100]
    /\ (forall i p,
           nth_error pages i = Some p ->
           exists pre post,
             events = pre
                      ++ [EvSetStatus (page_status n i true None);
                          EvInferCall i (dataUrl p) target]
                      ++ post)
    /\ (forall i,
           i < n ->
           progress (page_status n i true None)
           = add (num 5)
                 (floor (mul (div (num (Z.of_nat i)) (num (Z.of_nat n)))
                             (num 85)))
           /\ progress (page_status n i true None) = num (5 + percent i n)
           /\ (0 <= percent i n <= 84)%Z)
    /\ (n <= MAX_PAGES ->
        forall i, i < n -> percent i n = (85 * Z.of_nat i / Z.of_nat n)%Z)
    /\ nondecreasing (reported_progress events) = true
    /\ last (reported_progress events) (num 0) = num 100.
Proof.
  intros n. subst n.
  assert (Hpos : 1 <= length pages).
  { destruct pages; [contradiction|cbn; lia]. }
  assert (H32 : (Z.of_nat (length pages) < 2 ^ 32)%Z).
  { unfold MAX_ARRAY_LENGTH in Hlen. lia. }
  pose proof (startConversion_inferred env f target pages st responses
                Hpages Hok) as Hrun.
  rewrite Hemit in Hrun. unfold closing_events in Hrun.
  rewrite Hemit in Hrun.
  assert (Hprog :
            reported_progress
              ([EvSetStatus (init_status target)]
               ++ loop_events env target (length pages) true None 0 pages
               ++ [EvSetStatus finalizing_status;
                   EvSetConversionResult (assemble target responses);
                   emission env target f (assemble target responses)]
               ++ [EvSetStatus complete_status])
            = num 5 :: map (fun i => page_progress i (length pages))
                           (seq 0 (length pages))
                    ++ [num 95; num 100]).
  { rewrite !reported_progress_app, loop_progress.
    destruct target; reflexivity. }
  eexists. split; [exact Hrun|].
  split; [reflexivity|].
  split; [exact Hprog|].
  split.
  { intros i p Hi.
    destruct (loop_events_nth env target (length pages) true None pages 0 i p
                Hi) as (pre & post & E).
    exists ([EvSetStatus (init_status target)] ++ pre).
    eexists. rewrite E. unfold page_events. cbn [Nat.add app].
    rewrite <- !app_assoc. cbn [app]. reflexivity. }
  split.
  { intros i Hi. split; [reflexivity|].
    exact (page_progress_percent i (length pages) Hi H32). }
  split.
  { intros Hcap. apply percent_within_cap. lia. }
  split; [rewrite Hprog; apply progress_ascends; assumption|].
  rewrite Hprog, app_comm_cons.
  change [num 95; num 100] with ([num 95] ++ [num 100]).
  rewrite app_assoc.
  apply last_last.
Qed.

Lemma progress_reporting_witness :
  exists events,
    startConversion env_ok (Some sample_file) three_pages WORD idle
    = (inr tt,
       {| status := complete_status;
          conversionResult :=
            Some (Markdown (join PAGE_BREAK
                              [js "page 1"; js "page 2"; js "page 3"]));
          trace := events |})
    /\ reported_progress events
       = [num 5; num 5; num 33; num 61; num 95; num 100].
Proof.
  assert (Hne : three_pages <> []) by discriminate.
  assert (Hlen : (Z.of_nat (length three_pages) <= MAX_ARRAY_LENGTH)%Z)
    by (vm_compute; discriminate).
  destruct (progress_reporting env_ok sample_file three_pages WORD idle
              [js "page 1"; js "page 2"; js "page 3"] Hne Hlen
              eq_refl eq_refl)
    as (events & Hrun & _ & Hprog & _).
  exists events. split; [exact Hrun|].
  rewrite Hprog. vm_compute. reflexivity.
Defined.

(** C8, as the code has it.  A run over no page returns at once: it does
    not throw, it leaves the status, the conversion result and the trace
    as they were, so it makes no inference call and reports no error. *)
Theorem empty_input_returns
  (env : Env) (file : option File) (target : ConversionTarget) (st : Store) :
  startConversion env file [] target st = (inr tt, st)
  /\ inference_calls
       (skipn (length (trace st))
              (trace (snd (startConversion env file [] target st)))) = []
  /\ status (snd (startConversion env file [] target st)) = status st.
Proof.
  rewrite startConversion_no_pages. cbn [snd].
  split; [reflexivity|]. split; [|reflexivity].
  now rewrite skipn_all.
Qed.

(** C8 as stated fails: the run over no page neither throws nor sets an
    error. *)
Lemma empty_input_counterexample : ~ empty_input_as_specified.
Proof.
  intros H.
  destruct (H env_ok (Some sample_file) WORD idle) as [[e He]|[msg Hmsg]];
    discriminate.
Qed.

(** * Further properties of the code *)

(** ** File names *)

Section FileNameFacts.

Import FileName.

Lemma occurs_cons (pat : jsstring) (c : N) (s : jsstring) :
  occurs pat (c :: s) = false ->
  startsWith (c :: s) pat = false /\ occurs pat s = false.
Proof. cbn [occurs]. intros H. now apply orb_false_elim in H. Qed.

(** An occurrence of [.pdf] cannot straddle the dot that begins another
    one. *)
Lemma startsWith_pdf_app (s t : jsstring) :
  startsWith (s ++ js ".pdf" ++ t) (js ".pdf") = true ->
  startsWith s (js ".pdf") = true \/ s = [].
Proof.
  change (js ".pdf") with [46%N; 112%N; 100%N; 102%N].
  destruct s as [|x [|y [|z [|w s]]]]; auto; cbn [app startsWith];
    rewrite ?andb_false_r; try discriminate; auto.
Qed.

Lemma replace_first_pdf (a b : jsstring) :
  occurs (js ".pdf") a = false ->
  replace (a ++ js ".pdf" ++ b) (js ".pdf") [] = a ++ b.
Proof.
  induction a as [|c a IH]; intros H.
  - apply (replace_prefix (js ".pdf") b).
  - apply occurs_cons in H. destruct H as [Hs Ho].
    rewrite replace_unfold.
    destruct (startsWith ((c :: a) ++ js ".pdf" ++ b) (js ".pdf")) eqn:E.
    + apply startsWith_pdf_app in E. destruct E as [E|E];
        [rewrite E in Hs|]; discriminate.
    + cbn [app]. now rewrite IH.
Qed.

Lemma replace_absent (pat s : jsstring) :
  occurs pat s = false -> replace s pat [] = s.
Proof.
  induction s as [|c s IH]; intros H; rewrite replace_unfold.
  - cbn [occurs] in H. apply orb_false_elim in H. destruct H as [-> _].
    reflexivity.
  - apply occurs_cons in H. destruct H as [-> Ho]. now rewrite IH.
Qed.

Lemma same_ci_length (s pat : jsstring) :
  same_ci s pat = true -> length s = length pat.
Proof.
  revert pat. induction s as [|c s IH]; intros [|p pat] H;
    try discriminate; [reflexivity|].
  cbn [same_ci] in H. apply andb_prop in H. destruct H as [_ H].
  cbn [length]. now rewrite (IH pat H).
Qed.

Lemma same_ci_head (c : N) (s : jsstring) (p : N) (pat : jsstring) :
  same_ci (c :: s) (p :: pat) = true -> lower c = p.
Proof.
  cbn [same_ci]. intros H. apply andb_prop in H. destruct H as [H _].
  now apply N.eqb_eq.
Qed.

Lemma same_ci_second (c d : N) (s : jsstring) (p q : N) (pat : jsstring) :
  same_ci (c :: d :: s) (p :: q :: pat) = true -> lower d = q.
Proof.
  cbn [same_ci]. intros H. apply andb_prop in H. destruct H as [_ H].
  apply andb_prop in H. destruct H as [H _]. now apply N.eqb_eq.
Qed.

(** An extension begins with a dot and has three or four more code
    units. *)
Lemma is_extension_shape (s : jsstring) :
  is_extension s = true ->
  exists c r, s = c :: r /\ lower c = 46%N /\ 3 <= length r <= 4.
Proof.
  unfold is_extension. intros H.
  assert (Hl : 4 <= length s <= 5).
  { repeat (apply orb_prop in H; destruct H as [H|H]);
      apply same_ci_length in H; cbn in H; lia. }
  destruct s as [|c r]; [cbn in Hl; lia|].
  exists c, r. split; [reflexivity|]. split; [|cbn in Hl; lia].
  repeat (apply orb_prop in H; destruct H as [H|H]);
    exact (same_ci_head _ _ _ _ H).
Qed.

Lemma is_extension_five (c d : N) (r : jsstring) :
  is_extension (c :: d :: r) = true -> length r = 3 -> lower d = 106%N.
Proof.
  unfold is_extension. intros H Hl.
  repeat (apply orb_prop in H; destruct H as [H|H]).
  - apply same_ci_length in H. cbn in H. lia.
  - apply same_ci_length in H. cbn in H. lia.
  - apply same_ci_length in H. cbn in H. lia.
  - exact (same_ci_second _ _ _ _ _ _ H).
Qed.

(** Nothing longer than an extension and ending in it is an
    extension. *)
Lemma is_extension_longer (c : N) (pre ext : jsstring) :
  is_extension ext = true -> is_extension (c :: pre ++ ext) = false.
Proof.
  intros He. destruct (is_extension (c :: pre ++ ext)) eqn:E; [|reflexivity].
  exfalso.
  destruct (is_extension_shape _ He) as (d & r & -> & Hd & Hr).
  destruct (is_extension_shape _ E) as (c' & r' & Eq & _ & Hr').
  injection Eq as <- <-. rewrite length_app in Hr'. cbn [length] in Hr'.
  destruct pre as [|x pre]; [|cbn [length] in Hr'; lia].
  cbn [app] in E. pose proof (is_extension_five c d r E ltac:(cbn in *; lia)).
  congruence.
Qed.

Lemma cleanFileName_ext_unfold (s : jsstring) :
  cleanFileName_ext s =
  if is_extension s then []
  else match s with
       | [] => []
       | c :: r => c :: cleanFileName_ext r
       end.
Proof. destruct s; reflexivity. Qed.

Lemma strip_extension (stem ext : jsstring) :
  is_extension ext = true -> cleanFileName_ext (stem ++ ext) = stem.
Proof.
  intros He. induction stem as [|c stem IH]; rewrite cleanFileName_ext_unfold.
  - cbn [app]. now rewrite He.
  - cbn [app]. rewrite (is_extension_longer c stem ext He). now rewrite IH.
Qed.

Lemma keep_without_extension (s : jsstring) :
  (forall k, is_extension (skipn k s) = false) -> cleanFileName_ext s = s.
Proof.
  induction s as [|c s IH]; intros H; rewrite cleanFileName_ext_unfold.
  - pose proof (H 0) as H0. cbn [skipn] in H0. now rewrite H0.
  - pose proof (H 0) as H0. cbn [skipn] in H0. rewrite H0. f_equal.
    apply IH. intros k. exact (H (S k)).
Qed.

End FileNameFacts.

(** X1. The cleaning of src/App.tsx removes the first occurrence of
    [.pdf], wherever it stands, and only that one: a name in which
    [.pdf] does not occur (an upper-case extension, say) is left as it
    is, and in a name that holds it the text before and the text after
    its first occurrence are joined. *)
Theorem cleanFileName_pdf_first_occurrence
  (before after name : jsstring)
  (Hbefore : FileName.occurs (js ".pdf") before = false)
  (Hname : FileName.occurs (js ".pdf") name = false) :
  FileName.cleanFileName_pdf (before ++ js ".pdf" ++ after) = before ++ after
  /\ FileName.cleanFileName_pdf (before ++ js ".pdf") = before
  /\ FileName.cleanFileName_pdf name = name.
Proof.
  unfold FileName.cleanFileName_pdf. split; [|split].
  - now apply replace_first_pdf.
  - rewrite <- (app_nil_r (js ".pdf")), replace_first_pdf by assumption.
    apply app_nil_r.
  - now apply replace_absent.
Qed.

Lemma cleanFileName_pdf_first_occurrence_witness :
  FileName.cleanFileName_pdf (js "notes.pdf.old.pdf") = js "notes.old.pdf"
  /\ FileName.cleanFileName_pdf (js "Scan.PDF") = js "Scan.PDF".
Proof.
  destruct (cleanFileName_pdf_first_occurrence
              (js "notes") (js ".old.pdf") (js "Scan.PDF") eq_refl eq_refl)
    as (H1 & _ & H3).
  split; [exact H1|exact H3].
Defined.

(** X2. The cleaning of the later variant removes one extension among
    [.pdf], [.png], [.jpg] and [.jpeg], in any mix of cases, and only at
    the very end of the name: whatever the stem is, the stem comes back;
    a name no suffix of which is such an extension is left as it is. *)
Theorem cleanFileName_ext_strips_suffix
  (stem ext name : jsstring)
  (Hext : FileName.is_extension ext = true)
  (Hname : forall k, FileName.is_extension (skipn k name) = false) :
  FileName.cleanFileName_ext (stem ++ ext) = stem
  /\ FileName.cleanFileName_ext name = name.
Proof.
  split; [now apply strip_extension|now apply keep_without_extension].
Qed.

Lemma cleanFileName_ext_strips_suffix_witness :
  FileName.cleanFileName_ext (js "scan.pdf.JPG") = js "scan.pdf"
  /\ FileName.cleanFileName_ext (js "photo.webp") = js "photo.webp".
Proof.
  assert (Hname : forall k,
             FileName.is_extension (skipn k (js "photo.webp")) = false).
  { intros k. do 11 (destruct k as [|k]; [reflexivity|]). reflexivity. }
  exact (cleanFileName_ext_strips_suffix
           (js "scan.pdf") (js ".JPG") (js "photo.webp") eq_refl Hname).
Defined.

(** X3. On a name whose only [.pdf] is its lower-case extension the two
    variants of the application give the same download name. *)
Theorem cleanFileName_variants_agree
  (stem : jsstring)
  (Hstem : FileName.occurs (js ".pdf") stem = false) :
  FileName.cleanFileName_pdf (stem ++ js ".pdf")
  = FileName.cleanFileName_ext (stem ++ js ".pdf").
Proof.
  rewrite strip_extension by reflexivity.
  unfold FileName.cleanFileName_pdf.
  rewrite <- (app_nil_r (js ".pdf")), replace_first_pdf by assumption.
  apply app_nil_r.
Qed.

Lemma cleanFileName_variants_agree_witness :
  FileName.cleanFileName_pdf (js "report.pdf")
  = FileName.cleanFileName_ext (js "report.pdf").
Proof.
  exact (cleanFileName_variants_agree (js "report") eq_refl).
Defined.

(** ** The inference request *)

Section GeminiFacts.

Import Gemini.

Lemma split_head (s : jsstring) :
  exists rest, split 44 s = up_to_comma s :: rest.
Proof.
  induction s as [|c s [rest IH]]; cbn [split up_to_comma].
  - now exists [].
  - destruct (N.eqb c 44); [now eexists|].
    rewrite IH. now exists rest.
Qed.

Lemma split_no_comma (s : jsstring) :
  no_comma s = true -> split 44 s = [s].
Proof.
  unfold no_comma.
  induction s as [|c s IH]; cbn [split forallb]; [reflexivity|].
  intros H. apply andb_prop in H. destruct H as [Hc Hs].
  apply negb_true_iff in Hc. rewrite Hc, (IH Hs). reflexivity.
Qed.

Lemma up_to_comma_all (s : jsstring) :
  no_comma s = true -> up_to_comma s = s.
Proof.
  unfold no_comma.
  induction s as [|c s IH]; cbn [up_to_comma forallb]; [reflexivity|].
  intros H. apply andb_prop in H. destruct H as [Hc Hs].
  apply negb_true_iff in Hc. rewrite Hc, (IH Hs). reflexivity.
Qed.

End GeminiFacts.

(** X4. The data sent for a page is what stands between the first and
    the second comma of the data URL: after a header without a comma,
    the payload up to its own first comma, so all of it when it has
    none, as base64 text has not; of a string without a comma nothing
    is taken ([undefined]). *)
Theorem base64Data_between_commas
  (header payload url : jsstring)
  (Hheader : Gemini.no_comma header = true)
  (Hurl : Gemini.no_comma url = true) :
  Gemini.base64Data (header ++ 44%N :: payload)
  = Some (Gemini.up_to_comma payload)
  /\ (Gemini.no_comma payload = true ->
      Gemini.base64Data (header ++ 44%N :: payload) = Some payload)
  /\ Gemini.base64Data url = None.
Proof.
  assert (E : Gemini.base64Data (header ++ 44%N :: payload)
              = Some (Gemini.up_to_comma payload)).
  { unfold Gemini.base64Data.
    rewrite split_app, (split_no_comma header Hheader).
    destruct (split_head payload) as [rest ->]. reflexivity. }
  split; [exact E|]. split.
  - intros Hp. rewrite E. now rewrite up_to_comma_all.
  - unfold Gemini.base64Data. now rewrite split_no_comma.
Qed.

Lemma base64Data_between_commas_witness :
  Gemini.base64Data (js "data:image/png;base64,iVBORw0KGgo=")
  = Some (js "iVBORw0KGgo=")
  /\ Gemini.base64Data (js "iVBORw0KGgo=") = None.
Proof.
  destruct (base64Data_between_commas
              (js "data:image/png;base64") (js "iVBORw0KGgo=")
              (js "iVBORw0KGgo=") eq_refl eq_refl) as (_ & H & H').
  split; [exact (H eq_refl)|exact H'].
Defined.

(** ** Page extraction *)

Section ExtractionFacts.

Variable canvas : nat -> option jsstring.

Local Abbreviation render :=
  (fun i : nat => match canvas i with
                  | Some url => [ {| index := i; dataUrl := url |} ]
                  | None => []
                  end).

Lemma render_in (l : list nat) (p : DocumentPage) :
  In p (flat_map render l)
  <-> In (index p) l /\ canvas (index p) = Some (dataUrl p).
Proof.
  rewrite in_flat_map. split.
  - intros (i & Hi & Hp). destruct (canvas i) eqn:E; [|contradiction].
    destruct Hp as [<-|[]]. cbn. auto.
  - intros (Hi & Hc). exists (index p). split; [assumption|].
    rewrite Hc. left. now destruct p.
Qed.

Lemma render_sorted (l : list nat) :
  StronglySorted lt l ->
  StronglySorted lt (map index (flat_map render l)).
Proof.
  induction 1 as [|i l Hs IH Hall]; cbn [flat_map map]; [constructor|].
  rewrite map_app.
  destruct (canvas i); cbn [map app index]; [|assumption].
  constructor; [assumption|].
  rewrite Forall_forall in *. intros x Hx.
  apply in_map_iff in Hx. destruct Hx as (p & <- & Hp).
  apply render_in in Hp. apply Hall. tauto.
Qed.

Lemma render_all (l : list nat) :
  (forall i, In i l -> canvas i <> None) ->
  map index (flat_map render l) = l.
Proof.
  induction l as [|i l IH]; intros H; cbn [flat_map map]; [reflexivity|].
  rewrite map_app, IH by (intros j Hj; apply H; now right).
  destruct (canvas i) eqn:E; [reflexivity|].
  exfalso. apply (H i); [now left|assumption].
Qed.

Lemma render_length (l : list nat) :
  length (flat_map render l) <= length l.
Proof.
  induction l as [|i l IH]; cbn [flat_map length]; [lia|].
  rewrite length_app. destruct (canvas i); cbn [length]; lia.
Qed.

Lemma seq_sorted (n start : nat) : StronglySorted lt (seq start n).
Proof.
  revert start. induction n as [|n IH]; intros start; cbn [seq];
    constructor; [apply IH|].
  rewrite Forall_forall. intros j Hj. apply in_seq in Hj. lia.
Qed.

End ExtractionFacts.

(** X5. The pages extracted from a PDF are the rendered ones among its
    first ten, each once and in ascending order of page number: a page
    is in the result exactly when its number is between 1 and the
    smaller of the page count and 10 and a drawing context was there for
    it, and it carries the rendering of that very page. *)
Theorem extractPagesAsImages_pages
  (numPages : nat) (canvas : nat -> option jsstring) :
  (forall p,
      In p (extractPagesAsImages numPages canvas)
      <-> 1 <= index p <= Nat.min numPages MAX_PAGES
          /\ canvas (index p) = Some (dataUrl p))
  /\ StronglySorted lt (map index (extractPagesAsImages numPages canvas))
  /\ length (extractPagesAsImages numPages canvas)
     <= Nat.min numPages MAX_PAGES.
Proof.
  unfold extractPagesAsImages. cbv zeta. split; [|split].
  - intros p. rewrite (render_in canvas), in_seq. split; intros [H H']; split;
      try assumption; lia.
  - apply (render_sorted canvas), seq_sorted.
  - pose proof (render_length canvas (seq 1 (Nat.min numPages MAX_PAGES))) as H.
    now rewrite length_seq in H.
Qed.

(** X6. When every page can be drawn, the extracted pages are numbered
    1, 2, ... up to the smaller of the page count and 10, so the page at
    position [k] of the list, which the conversion loop counts from 0,
    is page [k + 1] of the document; pages after the tenth are left
    out. *)
Theorem extractPagesAsImages_numbering
  (numPages : nat) (canvas : nat -> option jsstring)
  (Hcanvas : forall i, 1 <= i <= numPages -> canvas i <> None) :
  map index (extractPagesAsImages numPages canvas)
  = seq 1 (Nat.min numPages MAX_PAGES)
  /\ length (extractPagesAsImages numPages canvas)
     = Nat.min numPages MAX_PAGES
  /\ (forall k p,
         nth_error (extractPagesAsImages numPages canvas) k = Some p ->
         index p = k + 1).
Proof.
  assert (E : map index (extractPagesAsImages numPages canvas)
              = seq 1 (Nat.min numPages MAX_PAGES)).
  { unfold extractPagesAsImages. cbv zeta. apply (render_all canvas).
    intros i Hi. apply in_seq in Hi. apply Hcanvas. lia. }
  split; [exact E|]. split.
  - rewrite <- (length_map index), E. apply length_seq.
  - intros k p Hk.
    pose proof (map_nth_error index k _ Hk) as Hi. rewrite E in Hi.
    assert (Hlt : k < Nat.min numPages MAX_PAGES).
    { rewrite <- (length_seq (Nat.min numPages MAX_PAGES) 1).
      apply nth_error_Some. congruence. }
    rewrite (nth_error_nth' _ 0) in Hi by now rewrite length_seq.
    rewrite seq_nth in Hi by assumption. injection Hi as <-. lia.
Qed.

Lemma extractPagesAsImages_numbering_witness :
  map index (extractPagesAsImages 12 (fun i => Some (decimal i)))
  = seq 1 10.
Proof.
  refine (proj1 (extractPagesAsImages_numbering
                   12 (fun i => Some (decimal i)) _)).
  intros i _. discriminate.
Defined.

(** ** The spreadsheet emitter *)

Section ExcelFacts.

Import Excel.




Lemma sheet_data_writable (t : JsValue) :
  sheet_data t = None <-> writable t = false.
Proof.
  unfold sheet_data, writable, get_prop, spread.
  destruct t as [| | | | | |props]; try (split; [reflexivity|reflexivity]).
  destruct (lookup (js "rows") props); split; intros H;
    try reflexivity; discriminate.
Qed.

Lemma sheets_from_none (tables : list JsValue) :
  forall index,
    sheets_from index tables = None <-> forallb writable tables = false.
Proof.
  induction tables as [|t tables IH]; intros index; cbn [sheets_from forallb].
  - split; discriminate.
  - pose proof (sheet_data_writable t) as Ht.
    destruct (sheet_data t) as [d|].
    + assert (Hw : writable t = true).
      { destruct (writable t); [reflexivity|].
        destruct Ht as [_ Ht]. discriminate (Ht eq_refl). }
      rewrite Hw. cbn [andb]. rewrite <- (IH (S index)).
      destruct (sheets_from (S index) tables); split; intros H;
        try reflexivity; discriminate.
    + destruct Ht as [Ht _]. rewrite (Ht eq_refl). tauto.
Qed.

(** The sheets made of [tables], numbered from [index]: one for each
    table, at the same position. *)
Lemma sheets_from_nth (tables : list JsValue) :
  forall index sheets,
    sheets_from index tables = Some sheets ->
    length sheets = length tables
    /\ forall k t,
        nth_error tables k = Some t ->
        exists d,
          sheet_data t = Some d
          /\ nth_error sheets k
             = Some {| sheet_name := js "Table " ++ decimal (index + k + 1);
                       sheet_rows := d |}.
Proof.
  induction tables as [|t tables IH]; intros index sheets H;
    cbn [sheets_from] in H.
  - injection H as <-. split; [reflexivity|]. intros [|k] t H; discriminate.
  - destruct (sheet_data t) as [d|] eqn:Ed; [|discriminate].
    destruct (sheets_from (S index) tables) as [ss|] eqn:Es; [|discriminate].
    injection H as <-. destruct (IH _ _ Es) as [Hlen Hnth].
    split; [cbn [length]; now rewrite Hlen|].
    intros [|k] t' Hk; cbn [nth_error] in Hk |- *.
    + injection Hk as <-. exists d. split; [assumption|].
      now rewrite Nat.add_0_r.
    + destruct (Hnth k t' Hk) as (d' & Hd' & Hs). exists d'.
      split; [assumption|].
      now replace (index + S k + 1) with (S index + k + 1) by lia.
Qed.



Lemma generateExcel_none (tables : list JsValue) (filename : jsstring) :
  generateExcel tables filename = None
  <-> forallb writable tables = false.
Proof.
  unfold generateExcel. destruct tables as [|t tables].
  - split; discriminate.
  - rewrite <- (sheets_from_none (t :: tables) 0).
    destruct (sheets_from 0 (t :: tables)); split; intros H;
      try reflexivity; discriminate.
Qed.

Lemma sheet_data_table (headers : list jsstring) (rows : list (list jsstring)) :
  sheet_data (table headers rows)
  = Some (JArray (map JString headers)
            :: map (fun r => JArray (map JString r)) rows).
Proof. reflexivity. Qed.

Lemma forallb_flat_map (A B : Type) (f : B -> bool) (g : A -> list B)
      (l : list A) :
  forallb f (flat_map g l) = forallb (fun x => forallb f (g x)) l.
Proof.
  induction l as [|x l IH]; cbn [flat_map forallb]; [reflexivity|].
  now rewrite forallb_app, IH.
Qed.

End ExcelFacts.

(** X7. The code of the spreadsheet emitter itself throws, and so never
    reaches [XLSX.writeFile], exactly when some element of the array it
    is given has no [rows] that can be spread: the element is not an
    object, or its [rows] is missing or is neither an array nor a
    string.  One such element anywhere is enough, and what [headers] is
    plays no part in it. *)
Theorem generateExcel_throws_iff
  (tables : list JsValue) (filename : jsstring) :
  Excel.generateExcel tables filename = None
  <-> forallb Excel.writable tables = false.
Proof. apply generateExcel_none. Qed.

(** X8. For tables of the shape the inference schema asks for, the
    workbook handed to [XLSX.writeFile] goes under the given name with
    [.xlsx] appended and has one sheet per table, in the order of the
    tables: the sheet of the table at position [k] is named [Table k+1]
    and holds the header row followed by the rows of the table, in their
    order. *)
Theorem generateExcel_one_sheet_per_table
  (specs : list (list jsstring * list (list jsstring)))
  (filename : jsstring)
  (Hspecs : specs <> []) :
  exists sheets,
    Excel.generateExcel (map (fun hr => table (fst hr) (snd hr)) specs)
                        filename
    = Some (filename ++ js ".xlsx", sheets)
    /\ length sheets = length specs
    /\ forall k headers rows,
        nth_error specs k = Some (headers, rows) ->
        nth_error sheets k
        = Some {| Excel.sheet_name := js "Table " ++ decimal (k + 1);
                  Excel.sheet_rows :=
                    JArray (map JString headers)
                      :: map (fun r => JArray (map JString r)) rows |}.
Proof.
  set (tables := map (fun hr => table (fst hr) (snd hr)) specs).
  assert (Hw : forallb Excel.writable tables = true).
  { apply forallb_forall. intros t Ht. apply in_map_iff in Ht.
    destruct Ht as (hr & <- & _). reflexivity. }
  destruct (Excel.sheets_from 0 tables) as [sheets|] eqn:Es.
  - exists sheets. destruct (sheets_from_nth tables 0 sheets Es) as [Hlen Hnth].
    split; [|split].
    + unfold Excel.generateExcel. rewrite Es.
      destruct tables eqn:Et; [|reflexivity].
      destruct specs; [contradiction|discriminate].
    + rewrite Hlen. apply length_map.
    + intros k headers rows Hk.
      destruct (Hnth k (table headers rows)) as (d & Hd & Hs).
      { unfold tables. now rewrite nth_error_map, Hk. }
      rewrite sheet_data_table in Hd. injection Hd as <-. exact Hs.
  - apply (sheets_from_none tables 0) in Es. congruence.
Qed.

Lemma generateExcel_one_sheet_per_table_witness :
  exists sheets,
    Excel.generateExcel [ table [js "a"; js "b"] [[js "1"; js "2"]];
                          table [js "c"] [] ]
                        (js "report")
    = Some (js "report.xlsx", sheets)
    /\ length sheets = 2.
Proof.
  destruct (generateExcel_one_sheet_per_table
              [ ([js "a"; js "b"], [[js "1"; js "2"]]); ([js "c"], []) ]
              (js "report") ltac:(discriminate)) as (sheets & H & Hlen & _).
  exists sheets. split; [exact H|exact Hlen].
Defined.



(** X10. The tables of all pages are written or none is: the code of the
    emitter throws on the merged array exactly when some page result
    contributes an element that has no [rows] that can be spread, on
    whichever page and at whichever place in it. *)
Theorem generateExcel_all_or_nothing
  (pageResults : list jsstring) (filename : jsstring) :
  Excel.generateExcel (allTables pageResults) filename = None
  <-> exists res t,
        In res pageResults /\ In t (page_tables res)
        /\ Excel.writable t = false.
Proof.
  rewrite generateExcel_none, allTables_flat, forallb_flat_map.
  split.
  - intros H. destruct (forallb (fun x => forallb Excel.writable (page_tables x))
                          pageResults) eqn:E; [discriminate|].
    clear H. induction pageResults as [|res rest IH]; [discriminate|].
    cbn [forallb] in E. apply andb_false_iff in E. destruct E as [E|E].
    + assert (Hex : exists t, In t (page_tables res)
                              /\ Excel.writable t = false).
      { induction (page_tables res) as [|t l IHl]; [discriminate|].
        cbn [forallb] in E. apply andb_false_iff in E. destruct E as [E|E].
        - exists t. split; [now left|assumption].
        - destruct (IHl E) as (t' & Ht' & Hw). exists t'. split; [now right|assumption]. }
      destruct Hex as (t & Ht & Hw). exists res, t. repeat split; auto.
      now left.
    + destruct (IH E) as (res' & t & Hres & Ht & Hw). exists res', t.
      repeat split; auto. now right.
  - intros (res & t & Hres & Ht & Hw).
    destruct (forallb (fun x => forallb Excel.writable (page_tables x))
                pageResults) eqn:E; [|reflexivity].
    rewrite forallb_forall in E. specialize (E res Hres).
    rewrite forallb_forall in E. specialize (E t Ht). congruence.
Qed.

(** ** Runs of the pipeline, whatever the collaborators do *)

Section RunOutcomes.

Variable env : Env.
Variable target : ConversionTarget.




(** The loop itself calls no emitter. *)
Lemma loop_no_emission (n i : nat) (rest : list DocumentPage) :
  filter is_emission (loop_events env target n true None i rest) = [].
Proof.
  revert i. induction rest as [|p rest IH]; intros i; cbn [loop_events];
    [reflexivity|].
  rewrite filter_app, IH. reflexivity.
Qed.

End RunOutcomes.

Lemma or_else_truthy (a b : jsstring) :
  truthy b = true -> truthy (or_else a b) = true.
Proof. unfold or_else. intros H. destruct (truthy a) eqn:E; assumption. Qed.

Lemma panel_error_status (e : JsError) :
  View.panel (error_status e)
  = View.Failure (or_else (message e) default_error).
Proof.
  unfold View.panel, error_status. cbn [isProcessing progress error].
  change (SFeqb (num 0) (num 100)) with false. cbv iota.
  now rewrite (or_else_truthy (message e) default_error).
Qed.

Lemma panel_complete_status : View.panel complete_status = View.Success.
Proof. reflexivity. Qed.





(** X13. When every inference call returned and the emitter throws, the
    run ends like a failed one, with progress back at 0 and the error
    panel, but the assembled result has been stored and stays stored:
    what failed to download is not lost with the failure. *)
Theorem emitter_failure_keeps_result
  (env : Env) (f : File) (pages : list DocumentPage)
  (target : ConversionTarget) (st : Store)
  (responses : list jsstring) (e : JsError)
  (Hpages : pages <> [])
  (Hok : outcomes env target 0 pages = map inr responses)
  (Hemit : emitter_outcome env target f (assemble target responses) = Some e) :
  status (snd (startConversion env (Some f) pages target st)) = error_status e
  /\ conversionResult (snd (startConversion env (Some f) pages target st))
     = Some (assemble target responses)
  /\ View.panel (status (snd (startConversion env (Some f) pages target st)))
     = View.Failure (or_else (message e) default_error)
  /\ View.target_selectable
       (status (snd (startConversion env (Some f) pages target st))) = true
  /\ exists events,
      trace (snd (startConversion env (Some f) pages target st))
      = trace st ++ events
        ++ [ emission env target f (assemble target responses);
             EvConsoleError e; EvSetStatus (error_status e) ].
Proof.
  rewrite (startConversion_inferred env f target pages st responses Hpages Hok).
  cbn [snd status conversionResult trace]. unfold closing_events.
  rewrite Hemit. split; [reflexivity|]. split; [reflexivity|].
  split; [apply panel_error_status|]. split; [reflexivity|].
  exists ([EvSetStatus (init_status target)]
          ++ loop_events env target (length pages) true None 0 pages
          ++ [ EvSetStatus finalizing_status;
               EvSetConversionResult (assemble target responses) ]).
  f_equal. rewrite <- !app_assoc. reflexivity.
Qed.

Lemma emitter_failure_keeps_result_witness :
  conversionResult
    (snd (startConversion
            (Wiring.env_modelled (fun _ _ _ => inr (jsq "{'tables':{'a':1}}")))
            (Some sample_file) three_pages EXCEL idle))
  = Some (Tables [ JObject [(js "a", JNumber false 1 0)];
                   JObject [(js "a", JNumber false 1 0)];
                   JObject [(js "a", JNumber false 1 0)] ]).
Proof.
  refine (proj1 (proj2 (emitter_failure_keeps_result
            (Wiring.env_modelled (fun _ _ _ => inr (jsq "{'tables':{'a':1}}")))
            sample_file three_pages EXCEL idle
            [ jsq "{'tables':{'a':1}}"; jsq "{'tables':{'a':1}}";
              jsq "{'tables':{'a':1}}" ]
            {| message := js "table.rows is not iterable" |}
            _ _ _))).
  - discriminate.
  - reflexivity.
  - vm_compute. reflexivity.
Defined.

(** ** The handlers of the component *)

Lemma triggerDownload_store (env : Env) (target : ConversionTarget)
      (d : FinalData) (fileName : jsstring) (st : Store) :
  snd (triggerDownload env target d fileName st)
  = {| status := status st;
       conversionResult := conversionResult st;
       trace := trace st
                ++ [emission env target {| name := fileName |} d] |}.
Proof.
  unfold triggerDownload, emission, generateExcel, generateWordFile, bind, log.
  cbn [name]. destruct target.
  - destruct (word env (markdown_or_empty d) (clean env fileName));
      reflexivity.
  - destruct (excel env (tables_or_empty d) (clean env fileName));
      reflexivity.
Qed.

(** X14. The manual download changes neither the status nor the stored
    result and never throws to its caller, even when the emitter does:
    with a file and a stored result it calls the emitter once, on the
    stored result and the cleaned file name, and without either it does
    nothing at all. *)
Theorem handleManualDownload_keeps_state
  (env : Env) (file : option File) (target : ConversionTarget) (st : Store) :
  fst (View.handleManualDownload env file target st) = inr tt
  /\ status (snd (View.handleManualDownload env file target st)) = status st
  /\ conversionResult (snd (View.handleManualDownload env file target st))
     = conversionResult st
  /\ trace (snd (View.handleManualDownload env file target st))
     = trace st
       ++ match file, conversionResult st with
          | Some f, Some d => [emission env target f d]
          | _, _ => []
          end.
Proof.
  unfold View.handleManualDownload.
  destruct file as [f|]; [destruct (conversionResult st) as [d|] eqn:E|].
  - cbn [fst snd]. rewrite triggerDownload_store.
    cbn [status conversionResult trace]. rewrite E. destruct f. auto.
  - cbn [fst snd]. rewrite E, app_nil_r. auto.
  - cbn [fst snd]. rewrite app_nil_r. auto.
Qed.

(** X15. After a successful run the success panel is shown, the target
    can no longer be changed, and Download Again makes the very emitter
    call the run made, on the same data and under the same name, leaving
    the status at completed. *)
Theorem manual_download_after_run
  (env : Env) (f : File) (pages : list DocumentPage)
  (target : ConversionTarget) (st : Store) (responses : list jsstring)
  (Hpages : pages <> [])
  (Hok : outcomes env target 0 pages = map inr responses)
  (Hemit : emitter_outcome env target f (assemble target responses) = None) :
  let done := snd (startConversion env (Some f) pages target st) in
  View.panel (status done) = View.Success
  /\ View.target_selectable (status done) = false
  /\ filter is_emission (trace done)
     = filter is_emission (trace st)
       ++ [emission env target f (assemble target responses)]
  /\ View.handleManualDownload env (Some f) target done
     = (inr tt,
        {| status := complete_status;
           conversionResult := Some (assemble target responses);
           trace := trace done
                    ++ [emission env target f (assemble target responses)] |}).
Proof.
  intros done. subst done.
  rewrite (startConversion_inferred env f target pages st responses Hpages Hok).
  rewrite Hemit. cbn [snd status conversionResult trace].
  split; [reflexivity|]. split; [reflexivity|]. split.
  - rewrite !filter_app. unfold closing_events. rewrite Hemit.
    rewrite loop_no_emission. cbn [filter is_emission app].
    destruct target; reflexivity.
  - unfold View.handleManualDownload. cbn [conversionResult].
    rewrite triggerDownload_store. cbn [status conversionResult trace].
    now destruct f.
Qed.

Lemma manual_download_after_run_witness :
  View.target_selectable
    (status (snd (startConversion env_ok (Some sample_file) three_pages
                    WORD idle)))
  = false.
Proof.
  exact (proj1 (proj2 (manual_download_after_run
            env_ok sample_file three_pages WORD idle
            [js "page 1"; js "page 2"; js "page 3"]
            ltac:(discriminate) eq_refl eq_refl))).
Defined.



Section SelectionFacts.

Lemma eqb_eq (a b : jsstring) : JsString.eqb a b = true <-> a = b.
Proof.
  revert b. induction a as [|x a IH]; intros [|y b]; cbn [JsString.eqb];
    try (split; [discriminate|discriminate]); [split; reflexivity|].
  rewrite andb_true_iff, N.eqb_eq, IH. split.
  - now intros [-> ->].
  - intros H. injection H as -> ->. auto.
Qed.

Lemma eqb_neq (a b : jsstring) : a <> b -> JsString.eqb a b = false.
Proof.
  intros H. destruct (JsString.eqb a b) eqn:E; [|reflexivity].
  apply eqb_eq in E. contradiction.
Qed.

End SelectionFacts.

(** X17. Selecting a PDF in src/App.tsx makes it the current file, drops
    the result of an earlier conversion, and leaves at most ten pages and
    a status in which the target can be chosen.  When the preview fails
    there are no pages, the error panel shows [Failed to preview PDF] in
    place of the convert button, and a conversion started all the same
    does nothing. *)
Theorem handleFileSelect_pdf_accepts
  (file : View.Upload)
  (extraction : JsError + nat * (nat -> option jsstring))
  (c : View.Selection)
  (Htype : View.upload_type file = js "application/pdf") :
  let c' := View.handleFileSelect_pdf (Some file) extraction c in
  View.sel_file c' = Some file
  /\ View.sel_result c' = None
  /\ View.sel_alert c' = View.sel_alert c
  /\ length (View.sel_pages c') <= MAX_PAGES
  /\ View.target_selectable (View.sel_status c') = true
  /\ (forall numPages canvas,
         extraction = inr (numPages, canvas) ->
         View.sel_pages c' = extractPagesAsImages numPages canvas
         /\ View.panel (View.sel_status c') = View.Ready)
  /\ (forall e,
         extraction = inl e ->
         View.sel_pages c' = []
         /\ View.panel (View.sel_status c')
            = View.Failure (js "Failed to preview PDF")
         /\ forall env target st,
             startConversion env (Some {| name := View.upload_name file |})
                             (View.sel_pages c') target st
             = (inr tt, st)).
Proof.
  intros c'. subst c'. unfold View.handleFileSelect_pdf.
  apply eqb_eq in Htype. rewrite Htype.
  destruct extraction as [e|[numPages canvas]];
    cbn [View.sel_file View.sel_result View.sel_alert View.sel_pages
         View.sel_status];
    (split; [reflexivity|]); (split; [reflexivity|]); (split; [reflexivity|]).
  - split; [cbn; lia|]. split; [reflexivity|]. split; [discriminate|].
    intros e' _. split; [reflexivity|]. split; [reflexivity|].
    intros env target st. reflexivity.
  - split; [apply extractPagesAsImages_cap|]. split; [reflexivity|]. split.
    + intros n cv H. injection H as <- <-. split; reflexivity.
    + discriminate.
Qed.

Lemma handleFileSelect_pdf_accepts_witness :
  View.sel_pages
    (View.handleFileSelect_pdf
       (Some {| View.upload_name := js "report.pdf";
                View.upload_type := js "application/pdf" |})
       (inl {| message := js "Invalid PDF structure" |})
       {| View.sel_file := None; View.sel_pages := three_pages;
          View.sel_status := complete_status;
          View.sel_result := Some (Markdown (js "old"));
          View.sel_alert := None |})
  = [].
Proof.
  refine (proj1 (proj2 (proj2 (proj2 (proj2 (proj2 (proj2
            (handleFileSelect_pdf_accepts
               {| View.upload_name := js "report.pdf";
                  View.upload_type := js "application/pdf" |}
               (inl {| message := js "Invalid PDF structure" |})
               {| View.sel_file := None; View.sel_pages := three_pages;
                  View.sel_status := complete_status;
                  View.sel_result := Some (Markdown (js "old"));
                  View.sel_alert := None |}
               eq_refl))))))
            {| message := js "Invalid PDF structure" |} eq_refl)).
Defined.

(** X18. A selection that src/App.tsx refuses, a file of another type or
    no file at all, changes nothing of the state: the current file, its
    pages, the status and the stored result stay, and the one effect is
    the alert. *)
Theorem handleFileSelect_pdf_refuses
  (selected : option View.Upload)
  (extraction : JsError + nat * (nat -> option jsstring))
  (c : View.Selection)
  (Hother : forall file,
      selected = Some file -> View.upload_type file <> js "application/pdf") :
  View.handleFileSelect_pdf selected extraction c
  = {| View.sel_file := View.sel_file c;
       View.sel_pages := View.sel_pages c;
       View.sel_status := View.sel_status c;
       View.sel_result := View.sel_result c;
       View.sel_alert := Some (js "Please upload a valid PDF file.") |}.
Proof.
  unfold View.handleFileSelect_pdf. destruct selected as [file|];
    [|reflexivity].
  now rewrite (eqb_neq _ _ (Hother file eq_refl)).
Qed.

Lemma handleFileSelect_pdf_refuses_witness :
  View.sel_alert
    (View.handleFileSelect_pdf
       (Some {| View.upload_name := js "scan.png";
                View.upload_type := js "image/png" |})
       (inr (1, fun _ => None))
       {| View.sel_file := None; View.sel_pages := [];
          View.sel_status := View.ready_status;
          View.sel_result := None; View.sel_alert := None |})
  = Some (js "Please upload a valid PDF file.").
Proof.
  rewrite (handleFileSelect_pdf_refuses
             (Some {| View.upload_name := js "scan.png";
                      View.upload_type := js "image/png" |})
             (inr (1, fun _ => None))
             {| View.sel_file := None; View.sel_pages := [];
                View.sel_status := View.ready_status;
                View.sel_result := None; View.sel_alert := None |}).
  - reflexivity.
  - intros file H. injection H as <-. discriminate.
Defined.

(** X19. In the later variant a file whose type begins with [image/] is
    accepted whatever the rest of the type is, the PDF extraction plays
    no part, and the image is one page, numbered 1, that carries the
    data URL read from the file; when reading fails there is no page and
    the error panel shows [Failed to process file]. *)
Theorem handleFileSelect_any_image
  (file : View.Upload)
  (extraction : JsError + nat * (nat -> option jsstring))
  (reading : JsError + jsstring)
  (c : View.Selection)
  (Himage : startsWith (View.upload_type file) (js "image/") = true) :
  let c' := View.handleFileSelect_any (Some file) extraction reading c in
  View.sel_file c' = Some file
  /\ View.sel_result c' = None
  /\ View.sel_alert c' = View.sel_alert c
  /\ View.target_selectable (View.sel_status c') = true
  /\ (forall url,
         reading = inr url ->
         View.sel_pages c' = [ {| index := 1; dataUrl := url |} ]
         /\ View.panel (View.sel_status c') = View.Ready)
  /\ (forall e,
         reading = inl e ->
         View.sel_pages c' = []
         /\ View.panel (View.sel_status c')
            = View.Failure (js "Failed to process file")).
Proof.
  intros c'. subst c'. unfold View.handleFileSelect_any. cbv zeta.
  assert (Hpdf : JsString.eqb (View.upload_type file) (js "application/pdf")
                 = false).
  { apply eqb_neq. intros E. rewrite E in Himage. discriminate. }
  rewrite Hpdf, Himage. cbn [orb].
  destruct reading as [e|url];
    cbn [View.sel_file View.sel_result View.sel_alert View.sel_pages
         View.sel_status];
    repeat (split; [reflexivity|]); split; intros ? H;
    try discriminate; try (injection H as <-); repeat split.
Qed.

Lemma handleFileSelect_any_image_witness :
  View.sel_pages
    (View.handleFileSelect_any
       (Some {| View.upload_name := js "scan.webp";
                View.upload_type := js "image/webp" |})
       (inl {| message := [] |})
       (inr (js "data:image/webp;base64,UklGRg=="))
       {| View.sel_file := None; View.sel_pages := [];
          View.sel_status := View.ready_status;
          View.sel_result := None; View.sel_alert := None |})
  = [ {| index := 1; dataUrl := js "data:image/webp;base64,UklGRg==" |} ].
Proof.
  refine (proj1 (proj1 (proj2 (proj2 (proj2 (proj2
            (handleFileSelect_any_image
               {| View.upload_name := js "scan.webp";
                  View.upload_type := js "image/webp" |}
               (inl {| message := [] |})
               (inr (js "data:image/webp;base64,UklGRg=="))
               {| View.sel_file := None; View.sel_pages := [];
                  View.sel_status := View.ready_status;
                  View.sel_result := None; View.sel_alert := None |}
               eq_refl)))))
            (js "data:image/webp;base64,UklGRg==") eq_refl)).
Defined.

(** ** The paragraphs of a document, line by line *)

Section ParagraphFacts.






End ParagraphFacts.



(** ** The name of the download *)



(** ** The document of several pages *)

Section PageFacts.

Lemma push_line_shift (before children : list Paragraph) (line : jsstring) :
  children <> [] ->
  push_line (before ++ children) line = before ++ push_line children line.
Proof.
  intros Hne. unfold push_line.
  assert (E : Nat.ltb 0 (length (before ++ children)) = true).
  { rewrite length_app. destruct children; [contradiction|].
    apply Nat.ltb_lt. cbn [length]. lia. }
  assert (E' : Nat.ltb 0 (length children) = true).
  { destruct children; [contradiction|reflexivity]. }
  rewrite E, E'.
  repeat match goal with |- context [if ?b then _ else _] =>
    destruct b end; now rewrite app_assoc.
Qed.

Lemma push_line_not_nil (children : list Paragraph) (line : jsstring) :
  push_line children line <> [].
Proof.
  intros E. apply (f_equal (@length _)) in E.
  rewrite push_line_length in E. discriminate.
Qed.

(** Paragraphs already there are carried along unchanged. *)
Lemma fold_push_shift (lines : list jsstring) :
  forall before children,
    children <> [] ->
    fold_left push_line lines (before ++ children)
    = before ++ fold_left push_line lines children.
Proof.
  induction lines as [|l lines IH]; intros before children Hne;
    cbn [fold_left]; [reflexivity|].
  rewrite (push_line_shift before children l Hne).
  apply IH, push_line_not_nil.
Qed.

(** A text whose first line is not blank gives the same paragraphs
    after other paragraphs as at the start of a document. *)
Lemma fold_push_context (text : jsstring) (children : list Paragraph) :
  forallb is_ws (hd [] (split LF text)) = false ->
  fold_left push_line (split LF text) children = children ++ parse_lines text.
Proof.
  unfold parse_lines. intros Hfirst.
  destruct (split LF text) as [|l lines]; [now rewrite app_nil_r|].
  cbn [hd] in Hfirst. cbn [fold_left].
  rewrite (push_line_content children l Hfirst),
          (push_line_content [] l Hfirst).
  cbn [app]. apply fold_push_shift. discriminate.
Qed.

Lemma split_hd_app (a b : jsstring) :
  hd [] (split LF (a ++ LF :: b)) = hd [] (split LF a).
Proof.
  rewrite split_app. pose proof (split_nonempty LF a) as Hne.
  destruct (split LF a); [contradiction|reflexivity].
Qed.

Lemma join_hd (x : jsstring) (rest : list jsstring) :
  hd [] (split LF (join PAGE_BREAK (x :: rest))) = hd [] (split LF x).
Proof.
  destruct rest as [|y rest]; [reflexivity|].
  rewrite join_cons2. apply (split_hd_app x).
Qed.

End PageFacts.

(** X22. The document of a conversion of several pages is the documents
    of the pages one after the other, with three paragraphs between two
    pages: a spacer, the line of the page break as an ordinary
    paragraph, and a spacer.  This holds when no page after the first
    begins with a blank line; such a line would become a spacer here,
    where at the head of a document of its own it is a paragraph. *)
Theorem document_of_pages
  (first : jsstring) (others : list jsstring)
  (Hothers : forall page,
      In page others -> forallb is_ws (hd [] (split LF page)) = false) :
  generateWord (join PAGE_BREAK (first :: others))
  = generateWord first
    ++ flat_map (fun page =>
                   [P_spacer; P_run PAGE_BREAK_LINE 120; P_spacer]
                   ++ generateWord page)
                others.
Proof.
  assert (Hgen : forall text, generateWord text = parse_lines text).
  { intros text. unfold generateWord. cbv zeta.
    pose proof (parse_lines_nonempty text) as Hne.
    destruct (parse_lines text); [contradiction|reflexivity]. }
  rewrite !Hgen.
  rewrite (flat_map_ext _ (fun page =>
             [P_spacer; P_run PAGE_BREAK_LINE 120; P_spacer]
             ++ parse_lines page))
    by (intros page; now rewrite Hgen).
  revert first. induction others as [|page others IH]; intros first.
  - cbn [join flat_map]. now rewrite app_nil_r.
  - rewrite join_cons2, parse_lines_page_break.
    rewrite fold_push_context
      by (rewrite join_hd; apply Hothers; now left).
    rewrite IH by (intros p Hp; apply Hothers; now right).
    cbn [flat_map]. now rewrite <- !app_assoc.
Qed.

Lemma document_of_pages_witness :
  generateWord (join PAGE_BREAK [js "# One"; js "- two"])
  = [ P_heading (js "One") HEADING_1 240 120;
      P_spacer; P_run PAGE_BREAK_LINE 120; P_spacer;
      P_bullet (js "two") 0 ].
Proof.
  rewrite (document_of_pages (js "# One") [js "- two"]).
  - reflexivity.
  - intros page [<-|[]]. reflexivity.
Defined.
